(** * SomSmartCycle: fleet telemetry, geofence and route derivation

    A shallow embedding of the client-side engine of the repository:

    - [calculateDistance], the haversine helper that appears (textually
      identical) in [EcommerceMetrics.tsx] and in the [GeoFencing]
      component;
    - [Metrics]: the [bikeData] handler of [EcommerceMetrics], which keeps
      a bounded location history and a cumulative travelled distance;
    - [GeoFencing]: the [bikeUpdate] handler, [fetchBikes], the fence
      controls and the alert buffer of the [GeoFencing] component;
    - [TrackingMap]: the [bikeUpdate] handler and the route controls of
      [BikeTrackingMap] in [pages/Map.tsx].

    JavaScript numbers are modelled as real numbers: IEEE rounding, NaN and
    the infinities are abstracted away.  In particular the model does not
    show that, in doubles, the intermediate value of [calculateDistance]
    can round above 1 for nearly antipodal positions, which makes the code
    return NaN.  React state is modelled by explicit
    state passing: every [setX (prev => ...)] updater becomes a pure function
    of the previous state, applied in the order the handlers queue them.
    An updater that throws unmounts its component: the tracking map, whose
    routes updater can throw, carries a [crashed] flag for this. *)

From Stdlib Require Import Reals Lra Psatz ZArith.
From stdpp Require Import base decidable option list strings pretty gmap.

#[global] Instance R_eq_dec : EqDecision R := Req_dec_T.
#[global] Instance Rgt_decision (x y : R) : Decision (x > y)%R := Rgt_dec x y.
#[global] Instance Rlt_decision (x y : R) : Decision (x < y)%R := Rlt_dec x y.

(** ** Geo math *)

Record Location := mkLocation { lat : R; lng : R }.

#[global] Instance Location_eq_dec : EqDecision Location.
Proof. solve_decision. Defined.

Section GeoMath.
Local Open Scope R_scope.

(** [Math.atan2 y x] on real arguments. *)
Definition atan2 (y x : R) : R :=
  if Rlt_dec 0 x then atan (y / x)
  else if Rlt_dec x 0 then
    (if Rle_dec 0 y then atan (y / x) + PI else atan (y / x) - PI)
  else if Rlt_dec 0 y then PI / 2
  else if Rlt_dec y 0 then - (PI / 2)
  else 0.

(** The intermediate value [a] of [calculateDistance]. *)
Definition haversine_a (lat1 lng1 lat2 lng2 : R) : R :=
  let dLat := (lat2 - lat1) * PI / 180 in
  let dLng := (lng2 - lng1) * PI / 180 in
  sin (dLat / 2) * sin (dLat / 2) +
  cos (lat1 * PI / 180) * cos (lat2 * PI / 180) *
  sin (dLng / 2) * sin (dLng / 2).

(** [calculateDistance(lat1, lng1, lat2, lng2)], in kilometres. *)
Definition calculateDistance (lat1 lng1 lat2 lng2 : R) : R :=
  let R_earth := 6371 in
  let a := haversine_a lat1 lng1 lat2 lng2 in
  let c := 2 * atan2 (sqrt a) (sqrt (1 - a)) in
  R_earth * c.

(** [x.toFixed(2)] for [0 <= |x| < 10^21] (above that the code switches
    to exponent notation, which no distance reaches): [n] is the integer
    for which [n / 100] is closest to [|x|], the larger one on a tie; its
    digits are printed with a point before the last two. *)
Definition toFixedHundredths (x : R) : Z := Int_part (x * 100 + / 2).

Definition hundredthsDigits (n : Z) : string :=
  String.append (pretty (n / 100)%Z)
    (String.append "." (String.append (pretty ((n / 10) mod 10)%Z) (pretty (n mod 10)%Z))).

Definition toFixed2 (x : R) : string :=
  if Rlt_dec x 0 then String.append "-" (hundredthsDigits (toFixedHundredths (- x)))
  else hundredthsDigits (toFixedHundredths x).

End GeoMath.

(** ** [EcommerceMetrics]: location history and cumulative distance *)

Module Metrics.
Local Open Scope R_scope.

(** An entry of the [locationHistory] array. *)
Record LocationHistory := mkLocationHistory {
  lh_lat : R;
  lh_lng : R;
  lh_timestamp : string
}.

(** The [data] member of a [bikeData] message.  [location] is optional
    because the handler tests it before use. *)
Record Payload := mkPayload {
  avgSpeed : R;
  distance : R;
  location : option Location;
  batteryLevel : option R;
  engineTemp : option R;
  fuelLevel : option R;
  battery : option R
}.

(** A [bikeData] message; [data] is optional for the same reason. *)
Record BikeData := mkBikeData {
  bikeId : string;
  timestamp : string;
  serverTimestamp : string;
  receivedAt : R;
  data : option Payload
}.

(** The React state of the component that the handler touches. *)
Record State := mkState {
  latestData : option BikeData;
  error : option string;
  locationHistory : list LocationHistory;
  totalCalculatedDistance : R;
  baseLocation : Location;
  distanceFromBase : R
}.

Definition init : State :=
  {| latestData := None;
     error := None;
     locationHistory := [];
     totalCalculatedDistance := 0;
     baseLocation := mkLocation 19.0760 72.8777;
     distanceFromBase := 0 |}.

(** The guard [data && data.data && data.data.location]: the location of
    an accepted message. *)
Definition accepted (msg : BikeData) : option Location :=
  match data msg with
  | Some d => location d
  | None => None
  end.

(** The amount the updater of [setLocationHistory] adds to
    [totalCalculatedDistance] for a new location. *)
Definition distanceAdded (prevHistory : list LocationHistory) (newLocation : LocationHistory) : R :=
  match last prevHistory with
  | Some lastLocation =>
      let distanceFromLast :=
        calculateDistance (lh_lat lastLocation) (lh_lng lastLocation)
                          (lh_lat newLocation) (lh_lng newLocation) in
      if Rgt_dec distanceFromLast 0.001 then distanceFromLast else 0
  | None => 0
  end.

(** The array the updater of [setLocationHistory] returns: push, then
    [shift] once if more than 100 entries. *)
Definition pushHistory (prevHistory : list LocationHistory) (newLocation : LocationHistory)
  : list LocationHistory :=
  let newHistory := prevHistory ++ [newLocation] in
  if decide (100 < length newHistory)%nat then drop 1 newHistory else newHistory.

(** The [bikeData] handler. *)
Definition onBikeData (msg : BikeData) (st : State) : State :=
  match accepted msg with
  | Some loc =>
      let distanceFromBaseCalc :=
        calculateDistance (lat (baseLocation st)) (lng (baseLocation st)) (lat loc) (lng loc) in
      let newLocation :=
        {| lh_lat := lat loc; lh_lng := lng loc; lh_timestamp := timestamp msg |} in
      {| latestData := Some msg;
         error := None;
         locationHistory := pushHistory (locationHistory st) newLocation;
         totalCalculatedDistance :=
           totalCalculatedDistance st + distanceAdded (locationHistory st) newLocation;
         baseLocation := baseLocation st;
         distanceFromBase := distanceFromBaseCalc |}
  | None => st
  end.

Definition resetDistance (st : State) : State :=
  {| latestData := latestData st;
     error := error st;
     locationHistory := [];
     totalCalculatedDistance := 0;
     baseLocation := baseLocation st;
     distanceFromBase := distanceFromBase st |}.

Definition updateBaseLocation (la lo : R) (st : State) : State :=
  {| latestData := latestData st;
     error := error st;
     locationHistory := locationHistory st;
     totalCalculatedDistance := totalCalculatedDistance st;
     baseLocation := mkLocation la lo;
     distanceFromBase := distanceFromBase st |}.

(** What can happen to the component. *)
Inductive Op :=
| OpBikeData (msg : BikeData)
| OpResetDistance
| OpUpdateBaseLocation (la lo : R).

Definition step (st : State) (op : Op) : State :=
  match op with
  | OpBikeData msg => onBikeData msg st
  | OpResetDistance => resetDistance st
  | OpUpdateBaseLocation la lo => updateBaseLocation la lo st
  end.

Definition run (ops : list Op) (st : State) : State := foldl step st ops.

(** A run of telemetry messages only. *)
Definition feed (msgs : list BikeData) (st : State) : State :=
  foldl (fun s msg => onBikeData msg s) st msgs.

(** The states visited while feeding [msgs], the starting state first. *)
Fixpoint trace (msgs : list BikeData) (st : State) : list State :=
  match msgs with
  | [] => [st]
  | msg :: rest => st :: trace rest (onBikeData msg st)
  end.

(** Every accepted message of [msgs] lies less than one metre from the
    location recorded just before it ([prev], when there is one). *)
Fixpoint nearPrevious (prev : option LocationHistory) (msgs : list BikeData) : Prop :=
  match msgs with
  | [] => True
  | msg :: rest =>
      match accepted msg with
      | Some loc =>
          match prev with
          | Some l => calculateDistance (lh_lat l) (lh_lng l) (lat loc) (lng loc) < 0.001
          | None => True
          end
          /\ nearPrevious (Some (mkLocationHistory (lat loc) (lng loc) (timestamp msg))) rest
      | None => nearPrevious prev rest
      end
  end.

(** The history entry the handler builds for a message, when it accepts
    the message. *)
Definition entryOf (msg : BikeData) : option LocationHistory :=
  (fun loc => mkLocationHistory (lat loc) (lng loc) (timestamp msg)) <$> accepted msg.

(** The entries of the accepted messages of [msgs], in order. *)
Definition entries (msgs : list BikeData) : list LocationHistory := omap entryOf msgs.

(** The length of the path through [points] that starts at [prev], each
    leg counted only when longer than 0.001 km. *)
Fixpoint pathLength (prev : option LocationHistory) (points : list LocationHistory) : R :=
  match points with
  | [] => 0
  | n :: rest =>
      match prev with
      | Some l =>
          let d := calculateDistance (lh_lat l) (lh_lng l) (lh_lat n) (lh_lng n) in
          if Rgt_dec d 0.001 then d else 0
      | None => 0
      end + pathLength (Some n) rest
  end.

End Metrics.

(** ** The [GeoFencing] component *)

Module GeoFencing.
Local Open Scope R_scope.

(** The [data] member of a [bikeUpdate] message.  [avgSpeed] and [battery]
    stand for the numbers [parseFloat] reads from the transmitted strings;
    [location] is optional because the handler tests it before use. *)
Record BikeData := mkBikeData {
  location : option Location;
  data_avgSpeed : R;
  battery : R
}.

Record BikeUpdateData := mkBikeUpdateData {
  msg_bikeId : string;
  data : BikeData;
  timestamp : string
}.

Record Bike := mkBike {
  bikeId : string;
  currentLocation : option Location;
  avgSpeed : R;
  batteryLevel : R;
  lastSeen : string;
  status : string;
  isOutsideFence : bool;
  distanceFromBase : R
}.

Inductive AlertType := fence_breach.

Record Alert := mkAlert {
  id : Z;
  alert_bikeId : string;
  type : AlertType;
  message : string;
  distance : string;
  alert_timestamp : string
}.

Record State := mkState {
  baseLocation : Location;
  radius : R;
  bikes : list Bike;
  alerts : list Alert;
  trackingEnabled : bool;
  lastUpdate : option string
}.

Definition init : State :=
  {| baseLocation := mkLocation 19.0760 72.8777;
     radius := 1;
     bikes := [];
     alerts := [];
     trackingEnabled := false;
     lastUpdate := None |}.

(** [prevBikes.findIndex(bike => bike.bikeId === id)] *)
Definition findIndex (bid : string) (prevBikes : list Bike) : option nat :=
  fst <$> list_find (fun bike => bikeId bike = bid) prevBikes.

(** [prevBikes.find(bike => bike.bikeId === id)] *)
Definition find (bid : string) (prevBikes : list Bike) : option Bike :=
  snd <$> list_find (fun bike => bikeId bike = bid) prevBikes.

(** The entry the handler builds for the message, fence status included. *)
Definition updatedBike (base : Location) (rad : R) (msg : BikeUpdateData) : Bike :=
  match location (data msg) with
  | Some loc =>
      let distance := calculateDistance (lat base) (lng base) (lat loc) (lng loc) in
      {| bikeId := msg_bikeId msg;
         currentLocation := location (data msg);
         avgSpeed := data_avgSpeed (data msg);
         batteryLevel := battery (data msg);
         lastSeen := timestamp msg;
         status := "active";
         isOutsideFence := bool_decide (distance > rad);
         distanceFromBase := distance |}
  | None =>
      {| bikeId := msg_bikeId msg;
         currentLocation := location (data msg);
         avgSpeed := data_avgSpeed (data msg);
         batteryLevel := battery (data msg);
         lastSeen := timestamp msg;
         status := "active";
         isOutsideFence := false;
         distanceFromBase := 0 |}
  end.

(** The alert the handler creates, if any: the new entry is outside and
    there is no previous entry, or the previous entry is not outside.
    [now] is [Date.now()] and [clock] is [new Date().toLocaleTimeString()]. *)
Definition newAlert (now : Z) (clock : string) (msg : BikeUpdateData)
    (prevBikes : list Bike) (updated : Bike) : option Alert :=
  match location (data msg) with
  | Some _ =>
      if isOutsideFence updated then
        let alert :=
          {| id := now;
             alert_bikeId := msg_bikeId msg;
             type := fence_breach;
             message := String.append "Bike "
                          (String.append (msg_bikeId msg) " has left the geo-fence area");
             distance := toFixed2 (distanceFromBase updated);
             alert_timestamp := clock |} in
        match find (msg_bikeId msg) prevBikes with
        | None => Some alert
        | Some existingBike =>
            if negb (isOutsideFence existingBike) then Some alert else None
        end
      else None
  | None => None
  end.

(** The array the updater of [setBikes] returns. *)
Definition storeBike (msg : BikeUpdateData) (prevBikes : list Bike) (updated : Bike)
  : list Bike :=
  match findIndex (msg_bikeId msg) prevBikes with
  | Some existingBikeIndex => <[existingBikeIndex := updated]> prevBikes
  | None => prevBikes ++ [updated]
  end.

(** [setAlerts(prev => [newAlert, ...prev.slice(0, 4)])] *)
Definition pushAlert (alert : Alert) (prev : list Alert) : list Alert :=
  alert :: take 4 prev.

(** The [bikeUpdate] handler. *)
Definition onBikeUpdate (now : Z) (clock : string) (msg : BikeUpdateData) (st : State) : State :=
  let updated := updatedBike (baseLocation st) (radius st) msg in
  {| baseLocation := baseLocation st;
     radius := radius st;
     bikes := storeBike msg (bikes st) updated;
     alerts :=
       match newAlert now clock msg (bikes st) updated with
       | Some alert => pushAlert alert (alerts st)
       | None => alerts st
       end;
     trackingEnabled := trackingEnabled st;
     lastUpdate := Some clock |}.

(** The [map] callback of [fetchBikes]. *)
Definition processBike (base : Location) (rad : R) (bike : Bike) : Bike :=
  match currentLocation bike with
  | Some loc =>
      let distance := calculateDistance (lat base) (lng base) (lat loc) (lng loc) in
      {| bikeId := bikeId bike;
         currentLocation := currentLocation bike;
         avgSpeed := avgSpeed bike;
         batteryLevel := batteryLevel bike;
         lastSeen := lastSeen bike;
         status := status bike;
         isOutsideFence := bool_decide (distance > rad);
         distanceFromBase := distance |}
  | None => bike
  end.

(** [fetchBikes]: [response] is the [bikes] member of the server's answer,
    [None] when the request fails or the member is missing. *)
Definition fetchBikes (response : option (list Bike)) (st : State) : State :=
  match response with
  | Some serverBikes =>
      {| baseLocation := baseLocation st;
         radius := radius st;
         bikes := map (processBike (baseLocation st) (radius st)) serverBikes;
         alerts := alerts st;
         trackingEnabled := trackingEnabled st;
         lastUpdate := lastUpdate st |}
  | None => st
  end.

Definition handleMapClick (latlng : Location) (st : State) : State :=
  {| baseLocation := mkLocation (lat latlng) (lng latlng);
     radius := radius st;
     bikes := bikes st;
     alerts := alerts st;
     trackingEnabled := trackingEnabled st;
     lastUpdate := lastUpdate st |}.

Definition handleRadiusChange (value : R) (st : State) : State :=
  if Rgt_dec value 0 then
    {| baseLocation := baseLocation st;
       radius := value;
       bikes := bikes st;
       alerts := alerts st;
       trackingEnabled := trackingEnabled st;
       lastUpdate := lastUpdate st |}
  else st.

Definition toggleTracking (st : State) : State :=
  {| baseLocation := baseLocation st;
     radius := radius st;
     bikes := if negb (trackingEnabled st) then [] else bikes st;
     alerts := if negb (trackingEnabled st) then [] else alerts st;
     trackingEnabled := negb (trackingEnabled st);
     lastUpdate := lastUpdate st |}.

Definition clearAlerts (st : State) : State :=
  {| baseLocation := baseLocation st;
     radius := radius st;
     bikes := bikes st;
     alerts := [];
     trackingEnabled := trackingEnabled st;
     lastUpdate := lastUpdate st |}.

(** The body of the effect that depends on [trackingEnabled],
    [baseLocation] and [radius]: nothing while tracking is disabled,
    otherwise the socket is (re)opened and the bikes are fetched. *)
Definition connectEffect (response : option (list Bike)) (st : State) : State :=
  if trackingEnabled st then fetchBikes response st else st.

(** A click on the map followed by the effect it triggers (the new
    [baseLocation] is a fresh object, so the effect always runs again). *)
Definition changeCenter (latlng : Location) (response : option (list Bike)) (st : State) : State :=
  connectEffect response (handleMapClick latlng st).

(** An edit of the radius field followed by the effect it triggers (the
    effect runs again only when [radius] has a new value). *)
Definition changeRadius (value : R) (response : option (list Bike)) (st : State) : State :=
  let st' := handleRadiusChange value st in
  if decide (radius st' = radius st) then st' else connectEffect response st'.

(** A press on the tracking button followed by the effect it triggers. *)
Definition switchTracking (response : option (list Bike)) (st : State) : State :=
  connectEffect response (toggleTracking st).

(** What can happen to the component.  A [bikeUpdate] message is only
    seen while the socket exists, that is while tracking is enabled. *)
Inductive Op :=
| OpBikeUpdate (now : Z) (clock : string) (msg : BikeUpdateData)
| OpRefresh (response : option (list Bike))
| OpMapClick (latlng : Location) (response : option (list Bike))
| OpRadiusChange (value : R) (response : option (list Bike))
| OpToggleTracking (response : option (list Bike))
| OpClearAlerts.

Definition step (st : State) (op : Op) : State :=
  match op with
  | OpBikeUpdate now clock msg =>
      if trackingEnabled st then onBikeUpdate now clock msg st else st
  | OpRefresh response => fetchBikes response st
  | OpMapClick latlng response => changeCenter latlng response st
  | OpRadiusChange value response => changeRadius value response st
  | OpToggleTracking response => switchTracking response st
  | OpClearAlerts => clearAlerts st
  end.

Definition run (ops : list Op) (st : State) : State := foldl step st ops.

(** Feeding telemetry under a fixed fence: the alert emitted by each
    message ([None] when the message emits none), in order. *)
Fixpoint emitted (base : Location) (rad : R) (msgs : list (Z * string * BikeUpdateData))
    (prevBikes : list Bike) : list (option Alert) :=
  match msgs with
  | [] => []
  | (now, clock, msg) :: rest =>
      let updated := updatedBike base rad msg in
      newAlert now clock msg prevBikes updated
        :: emitted base rad rest (storeBike msg prevBikes updated)
  end.

(** The fence classification the store holds for an entity: [None] when
    the entity is unknown. *)
Definition classification (bid : string) (prevBikes : list Bike) : option bool :=
  isOutsideFence <$> find bid prevBikes.

(** A stored entry agrees with a fence configuration. *)
Definition consistent (base : Location) (rad : R) (bike : Bike) : Prop :=
  forall loc, currentLocation bike = Some loc ->
    (isOutsideFence bike = true <->
     calculateDistance (lat base) (lng base) (lat loc) (lng loc) > rad).


(** The two lists the statistics panel counts. *)
Definition bikesInFence (bs : list Bike) : list Bike :=
  filter (fun bike => negb (isOutsideFence bike)) bs.

Definition bikesOutsideFence (bs : list Bike) : list Bike :=
  filter (fun bike => isOutsideFence bike) bs.

End GeoFencing.

(** ** [BikeTrackingMap] of [pages/Map.tsx] *)

Module TrackingMap.
Local Open Scope R_scope.

Inductive Status := active | inactive | maintenance.

(** As in [GeoFencing], [avgSpeed] and [battery] stand for the numbers
    [parseFloat] reads from the transmitted strings. *)
Record BikeData := mkBikeData {
  location : option Location;
  data_avgSpeed : R;
  battery : R
}.

Record BikeUpdateData := mkBikeUpdateData {
  msg_bikeId : string;
  data : BikeData;
  timestamp : string
}.

Record Bike := mkBike {
  bikeId : string;
  currentLocation : option Location;
  avgSpeed : R;
  batteryLevel : R;
  lastSeen : string;
  status : Status
}.

(** [Routes]: an object from bike ids to arrays of [[lat, lng]] pairs. *)
Abbreviation Routes := (gmap string (list (R * R))).

(** The React state of the component.  [crashed] records that a state
    updater has thrown: React then unmounts the component, and its other
    fields are no longer shown or updated. *)
Record State := MkState {
  bikes : list Bike;
  routes : Routes;
  isTrackingRoutes : bool;
  followBike : option string;
  lastUpdate : option string;
  crashed : bool
}.

(** A state of the mounted component. *)
Definition mkState (bs : list Bike) (rs : Routes) (tracking : bool)
    (follow : option string) (update : option string) : State :=
  MkState bs rs tracking follow update false.

Definition init : State :=
  {| bikes := [];
     routes := ∅;
     isTrackingRoutes := false;
     followBike := None;
     lastUpdate := None;
     crashed := false |}.

Definition findIndex (bid : string) (prevBikes : list Bike) : option nat :=
  fst <$> list_find (fun bike => bikeId bike = bid) prevBikes.

Definition find (bid : string) (prevBikes : list Bike) : option Bike :=
  snd <$> list_find (fun bike => bikeId bike = bid) prevBikes.

(** The updater of [setBikes] in the [bikeUpdate] handler. *)
Definition updateBikes (msg : BikeUpdateData) (prevBikes : list Bike) : list Bike :=
  match list_find (fun bike => bikeId bike = msg_bikeId msg) prevBikes with
  | Some (existingBikeIndex, existing) =>
      <[existingBikeIndex :=
          {| bikeId := bikeId existing;
             currentLocation := location (data msg);
             avgSpeed := data_avgSpeed (data msg);
             batteryLevel := battery (data msg);
             lastSeen := timestamp msg;
             status := status existing |}]> prevBikes
  | None =>
      prevBikes ++
        [ {| bikeId := msg_bikeId msg;
             currentLocation := location (data msg);
             avgSpeed := data_avgSpeed (data msg);
             batteryLevel := battery (data msg);
             lastSeen := timestamp msg;
             status := active |} ]
  end.

(** The names every plain object inherits from [Object.prototype].
    [routes] is a plain object, so reading one of these keys gives the
    inherited member (a function, or the prototype itself) unless the
    object has a route of its own under that key. *)
Definition inheritedMembers : list string :=
  ["constructor"; "hasOwnProperty"; "isPrototypeOf"; "propertyIsEnumerable";
   "toLocaleString"; "toString"; "valueOf"; "__proto__";
   "__defineGetter__"; "__defineSetter__"; "__lookupGetter__"; "__lookupSetter__"].

(** [prevRoutes[bid] || []]: the route stored under [bid]; without one,
    the empty route, or [None] when [bid] names an inherited member, which
    is truthy and is no array. *)
Definition routeOf (bid : string) (prevRoutes : Routes) : option (list (R * R)) :=
  match prevRoutes !! bid with
  | Some bikeRoute => Some bikeRoute
  | None => if decide (bid ∈ inheritedMembers) then None else Some []
  end.

(** The updater of [setRoutes] in the [bikeUpdate] handler: the point is
    appended unless it equals the last point of the route.  For an
    inherited member no last point is found and [[...bikeRoute, newPoint]]
    throws a [TypeError]: the result is [None]. *)
Definition recordPoint (bid : string) (loc : Location) (prevRoutes : Routes)
  : option Routes :=
  match routeOf bid prevRoutes with
  | Some bikeRoute =>
      let newPoint := (lat loc, lng loc) in
      match last bikeRoute with
      | None => Some (<[bid := bikeRoute ++ [newPoint]]> prevRoutes)
      | Some lastPoint =>
          if decide (lastPoint.1 <> newPoint.1 \/ lastPoint.2 <> newPoint.2)
          then Some (<[bid := bikeRoute ++ [newPoint]]> prevRoutes)
          else Some prevRoutes
      end
  | None => None
  end.

(** What the handler's [setRoutes] leaves: the routes are only updated
    while tracking is on and the message has a location; [None] when the
    updater throws. *)
Definition updateRoutes (msg : BikeUpdateData) (st : State) : option Routes :=
  match isTrackingRoutes st, location (data msg) with
  | true, Some loc => recordPoint (msg_bikeId msg) loc (routes st)
  | _, _ => Some (routes st)
  end.

(** The [bikeUpdate] handler; [clock] is [new Date().toLocaleTimeString()].
    When the routes updater throws, the routes are left as they were and
    the component is marked as crashed. *)
Definition onBikeUpdate (clock : string) (msg : BikeUpdateData) (st : State) : State :=
  {| bikes := updateBikes msg (bikes st);
     routes := default (routes st) (updateRoutes msg st);
     isTrackingRoutes := isTrackingRoutes st;
     followBike := followBike st;
     lastUpdate := Some clock;
     crashed :=
       match updateRoutes msg st with
       | Some _ => crashed st
       | None => true
       end |}.

Definition fetchBikes (response : option (list Bike)) (st : State) : State :=
  match response with
  | Some serverBikes =>
      {| bikes := serverBikes;
         routes := routes st;
         isTrackingRoutes := isTrackingRoutes st;
         followBike := followBike st;
         lastUpdate := lastUpdate st;
         crashed := crashed st |}
  | None => st
  end.

(** The routes [startRouteTracking] leaves: starting from the empty
    object, one [setRoutes] per bike that has a location. *)
Definition initialRoutes (bs : list Bike) : Routes :=
  foldl (fun prevRoutes bike =>
           match currentLocation bike with
           | Some loc => <[bikeId bike := [(lat loc, lng loc)]]> prevRoutes
           | None => prevRoutes
           end) ∅ bs.

Definition startRouteTracking (st : State) : State :=
  {| bikes := bikes st;
     routes := initialRoutes (bikes st);
     isTrackingRoutes := true;
     followBike := followBike st;
     lastUpdate := lastUpdate st;
     crashed := crashed st |}.

Definition stopRouteTracking (st : State) : State :=
  {| bikes := bikes st;
     routes := routes st;
     isTrackingRoutes := false;
     followBike := followBike st;
     lastUpdate := lastUpdate st;
     crashed := crashed st |}.

Definition clearRoutes (st : State) : State :=
  {| bikes := bikes st;
     routes := ∅;
     isTrackingRoutes := isTrackingRoutes st;
     followBike := followBike st;
     lastUpdate := lastUpdate st;
     crashed := crashed st |}.

Definition followBikeHandler (bid : string) (st : State) : State :=
  {| bikes := bikes st;
     routes := routes st;
     isTrackingRoutes := isTrackingRoutes st;
     followBike := if decide (followBike st = Some bid) then None else Some bid;
     lastUpdate := lastUpdate st;
     crashed := crashed st |}.

(** The tracking button: stop while tracking, start otherwise. *)
Definition toggleRouteTracking (st : State) : State :=
  if isTrackingRoutes st then stopRouteTracking st else startRouteTracking st.

(** The palette of [getRouteColor]. *)
Definition colors : list string :=
  ["#3B82F6"; "#10B981"; "#F59E0B"; "#EF4444"; "#8B5CF6"; "#F97316"].

(** [colors[bikes.findIndex(b => b.bikeId === bikeId) % colors.length]]:
    for an unknown bike [findIndex] is -1, the remainder is -1 and the
    array access is [undefined], here [None]. *)
Definition getRouteColor (bid : string) (bs : list Bike) : option string :=
  match findIndex bid bs with
  | Some i => colors !! (i mod length colors)%nat
  | None => None
  end.

(** What can happen to the component; nothing happens to a component
    that has crashed. *)
Inductive Op :=
| OpBikeUpdate (clock : string) (msg : BikeUpdateData)
| OpFetchBikes (response : option (list Bike))
| OpStartRouteTracking
| OpStopRouteTracking
| OpClearRoutes
| OpFollowBike (bid : string).

Definition step (st : State) (op : Op) : State :=
  if crashed st then st
  else
    match op with
    | OpBikeUpdate clock msg => onBikeUpdate clock msg st
    | OpFetchBikes response => fetchBikes response st
    | OpStartRouteTracking => startRouteTracking st
    | OpStopRouteTracking => stopRouteTracking st
    | OpClearRoutes => clearRoutes st
    | OpFollowBike bid => followBikeHandler bid st
    end.

Definition run (ops : list Op) (st : State) : State := foldl step st ops.

(** A route in which no point is followed by an equal point. *)
Definition noRepeat (route : list (R * R)) : Prop :=
  forall i p q, route !! i = Some p -> route !! S i = Some q -> p <> q.

(** The location of the last entry of [bs] that is listed under [bid]
    and has a location. *)
Definition lastLocated (bid : string) (bs : list Bike) : option Location :=
  last (omap (fun bike => if decide (bikeId bike = bid) then currentLocation bike else None) bs).

(** The routes drawn as polylines: none while tracking is off, and
    otherwise the stored routes of more than one point. *)
Definition drawnRoutes (st : State) : Routes :=
  if isTrackingRoutes st then filter (fun entry => (1 < length entry.2)%nat) (routes st) else ∅.

(** The stored routes are well formed: none is empty and none repeats a
    point immediately. *)
Definition wellFormedRoutes (rs : Routes) : Prop :=
  forall bid route, rs !! bid = Some route -> route <> [] /\ noRepeat route.

End TrackingMap.

(** ** The bike simulator firmware: battery bookkeeping

    [sendBikeDataOnce] is the same in the MQTT and in the HTTPS sketch.
    [int] is a 32-bit signed and [unsigned long] a 32-bit unsigned integer
    on the ESP32. *)

Module Firmware.
Local Open Scope Z_scope.

(** Wrap-around of [int] and of [unsigned long] arithmetic. *)
Definition wrapInt (z : Z) : Z := (z + 2 ^ 31) mod 2 ^ 32 - 2 ^ 31.
Definition wrapULong (z : Z) : Z := z mod 2 ^ 32.

(** The globals the battery logic uses. *)
Record State := mkState {
  battery : Z;
  sendCount : Z;
  lastBatteryUpdate : Z
}.

Definition init : State :=
  {| battery := 70; sendCount := 0; lastBatteryUpdate := 0 |}.

(** [sendBikeDataOnce]: [currentTime] is the value of [millis()] and
    [sent] the result of [sendBikeDataMQTT()] (or [sendBikeData()]). *)
Definition sendBikeDataOnce (currentTime : Z) (sent : bool) (st : State) : State :=
  if sent then
    let sendCount1 := wrapInt (sendCount st + 1) in
    if (5 <=? sendCount1) || (30000 <=? wrapULong (currentTime - lastBatteryUpdate st)) then
      let battery1 := wrapInt (battery st - 1) in
      {| battery := if battery1 <? 30 then 70 else battery1;
         sendCount := 0;
         lastBatteryUpdate := currentTime |}
    else
      {| battery := battery st;
         sendCount := sendCount1;
         lastBatteryUpdate := lastBatteryUpdate st |}
  else st.

(** [mqttCallback] (MQTT sketch only): the [reset_battery] command. *)
Definition mqttCallback (topic message : string) (st : State) : State :=
  if decide (topic = "smartcycle/bike/command") then
    if decide (message = "reset_battery") then
      {| battery := 70; sendCount := sendCount st; lastBatteryUpdate := lastBatteryUpdate st |}
    else st
  else st.

(** [lastBatteryUpdate = millis()] at the end of [setup]. *)
Definition stampBatteryUpdate (currentTime : Z) (st : State) : State :=
  {| battery := battery st; sendCount := sendCount st; lastBatteryUpdate := currentTime |}.

Inductive Op :=
| OpSend (currentTime : Z) (sent : bool)
| OpMessage (topic message : string)
| OpStamp (currentTime : Z).

Definition step (st : State) (op : Op) : State :=
  match op with
  | OpSend currentTime sent => sendBikeDataOnce currentTime sent st
  | OpMessage topic message => mqttCallback topic message st
  | OpStamp currentTime => stampBatteryUpdate currentTime st
  end.

Definition run (ops : list Op) (st : State) : State := foldl step st ops.

(** The battery values reported while running [ops], one per step. *)
Fixpoint batteryTrace (ops : list Op) (st : State) : list Z :=
  match ops with
  | [] => []
  | op :: rest => battery (step st op) :: batteryTrace rest (step st op)
  end.

(** The values the counters stay within. *)
Definition inRange (st : State) : Prop :=
  30 <= battery st <= 70 /\ 0 <= sendCount st <= 4.

End Firmware.

(** ** Sample data used in the examples below *)

Definition sample_message (la lo : R) (ts : string) : Metrics.BikeData :=
  Metrics.mkBikeData "bike-1" ts ts 0
    (Some (Metrics.mkPayload 12 0 (Some (mkLocation la lo)) None None None (Some 80%R))).

(** The worked example of the specification: the default fence centre
    and a position 0.019 degrees of latitude to the north, a little over
    two kilometres away. *)
Definition mumbai : Location := mkLocation 19.0760 72.8777.
Definition north_of_mumbai : Location := mkLocation 19.0950 72.8777.

Definition report (bid : string) (loc : Location) (ts : string) : GeoFencing.BikeUpdateData :=
  GeoFencing.mkBikeUpdateData bid (GeoFencing.mkBikeData (Some loc) 12 80) ts.

Definition sample_alert (n : Z) : GeoFencing.Alert :=
  GeoFencing.mkAlert n "bike-2" GeoFencing.fence_breach "Bike bike-2 has left the geo-fence area"
    "3.00" "09:00:00".

Definition full_alert_state : GeoFencing.State :=
  GeoFencing.mkState mumbai 1 []
    [sample_alert 5; sample_alert 4; sample_alert 3; sample_alert 2; sample_alert 1]
    true None.

Definition fetched_bike : GeoFencing.Bike :=
  GeoFencing.mkBike "bike-1" (Some north_of_mumbai) 12 80 "t1" "active" false 0.

Definition map_report (bid : string) (loc : Location) (ts : string) : TrackingMap.BikeUpdateData :=
  TrackingMap.mkBikeUpdateData bid (TrackingMap.mkBikeData (Some loc) 12 80) ts.

Definition parked_bike : TrackingMap.Bike :=
  TrackingMap.mkBike "bike-1" (Some (mkLocation 3 4)) 0 55 "t9" TrackingMap.active.

(** * Properties *)

(** ** Geo math *)

Section GeoFacts.
Local Open Scope R_scope.

Lemma sin_half_sq x : sin (x / 2) * sin (x / 2) = (1 - cos x) / 2.
Proof.
  pose proof (cos_2a_sin (x / 2)) as H.
  replace (2 * (x / 2)) with x in H by lra. lra.
Qed.

Lemma haversine_a_range lat1 lng1 lat2 lng2 :
  0 <= haversine_a lat1 lng1 lat2 lng2 <= 1.
Proof.
  unfold haversine_a. cbv zeta.
  set (u := lat1 * PI / 180). set (v := lat2 * PI / 180).
  replace ((lat2 - lat1) * PI / 180) with (v - u) by (unfold u, v; lra).
  set (w := (lng2 - lng1) * PI / 180).
  rewrite sin_half_sq.
  replace (cos u * cos v * sin (w / 2) * sin (w / 2))
    with (cos u * cos v * (sin (w / 2) * sin (w / 2))) by ring.
  rewrite sin_half_sq, cos_minus.
  pose proof (sin2_cos2 u) as Hu. pose proof (sin2_cos2 v) as Hv.
  pose proof (COS_bound w) as [Hw1 Hw2].
  unfold Rsqr in Hu, Hv.
  set (su := sin u) in *. set (cu := cos u) in *.
  set (sv := sin v) in *. set (cv := cos v) in *.
  set (t := cos w) in *.
  assert (0 <= (1 - t * t) * (cv * cv)) as Hq.
  { apply Rmult_le_pos; [nra | apply Rle_0_sqr]. }
  pose proof (Rle_0_sqr (su - sv)) as Hp1. pose proof (Rle_0_sqr (cu - t * cv)) as Hp2.
  pose proof (Rle_0_sqr (su + sv)) as Hp3. pose proof (Rle_0_sqr (cu + t * cv)) as Hp4.
  unfold Rsqr in Hp1, Hp2, Hp3, Hp4.
  split; nra.
Qed.

Lemma atan2_sqrt_asin a :
  0 <= a <= 1 -> atan2 (sqrt a) (sqrt (1 - a)) = asin (sqrt a).
Proof.
  intros [H0 H1]. unfold atan2.
  destruct (Rlt_dec 0 (sqrt (1 - a))) as [Hpos | Hnpos].
  - assert (a < 1) as Hlt.
    { destruct (Rle_lt_dec 1 a) as [Hge | ]; [| done].
      replace (1 - a) with 0 in Hpos by lra. rewrite sqrt_0 in Hpos. lra. }
    assert (sqrt a < 1) as Hs.
    { rewrite <- sqrt_1. apply sqrt_lt_1; lra. }
    pose proof (sqrt_pos a).
    rewrite asin_atan by lra.
    by rewrite Rsqr_sqrt.
  - assert (a = 1) as ->.
    { destruct (Rle_lt_dec 1 a) as [Hge | Hlt]; [lra |].
      exfalso. apply Hnpos. apply sqrt_lt_R0. lra. }
    replace (1 - 1) with 0 by lra.
    rewrite sqrt_0, sqrt_1, asin_1.
    destruct (Rlt_dec 0 0); [lra |].
    destruct (Rlt_dec 0 1); [done | lra].
Qed.

(** [toFixed(2)] keeps two decimals: 1.00075 is printed as 1.00, and
    2.125, half way between two candidates, as the larger one. *)
Example toFixed2_rounds : toFixed2 1.00075 = "1.00" /\ toFixed2 2.125 = "2.13".
Proof.
  unfold toFixed2, toFixedHundredths.
  destruct (Rlt_dec 1.00075 0); [lra |]. destruct (Rlt_dec 2.125 0); [lra |].
  assert (Int_part (1.00075 * 100 + / 2) = 100%Z) as ->.
  { symmetry. apply Int_part_spec. split; simpl; lra. }
  assert (Int_part (2.125 * 100 + / 2) = 213%Z) as ->.
  { symmetry. apply Int_part_spec. split; simpl; lra. }
  split; reflexivity.
Qed.

(** A point is at distance zero from itself. *)
Lemma calculateDistance_same la lo : calculateDistance la lo la lo = 0.
Proof.
  unfold calculateDistance, haversine_a. cbv zeta.
  replace ((la - la) * PI / 180 / 2) with 0 by lra.
  replace ((lo - lo) * PI / 180 / 2) with 0 by lra.
  rewrite sin_0.
  replace (0 * 0 + cos (la * PI / 180) * cos (la * PI / 180) * 0 * 0) with 0 by ring.
  replace (1 - 0) with 1 by lra.
  rewrite sqrt_0, sqrt_1. unfold atan2.
  destruct (Rlt_dec 0 1); [| lra].
  replace (0 / 1) with 0 by lra. rewrite atan_0. ring.
Qed.

(** Along a meridian the distance is the arc length of the latitude
    difference. *)
Lemma calculateDistance_meridian la1 la2 lo :
  0 <= la2 - la1 <= 180 ->
  calculateDistance la1 lo la2 lo = 6371 * ((la2 - la1) * PI / 180).
Proof.
  intros Hd. unfold calculateDistance. cbv zeta.
  rewrite atan2_sqrt_asin by apply haversine_a_range.
  unfold haversine_a. cbv zeta.
  replace ((lo - lo) * PI / 180 / 2) with 0 by lra.
  rewrite sin_0.
  set (x := (la2 - la1) * PI / 180 / 2).
  replace (sin x * sin x + cos (la1 * PI / 180) * cos (la2 * PI / 180) * 0 * 0)
    with (Rsqr (sin x)) by (unfold Rsqr; ring).
  pose proof PI_RGT_0 as Hpi.
  assert (0 <= x <= PI / 2) as Hx by (unfold x; split; nra).
  rewrite sqrt_Rsqr by (apply sin_ge_0; lra).
  rewrite asin_sin by lra.
  unfold x. lra.
Qed.

Lemma PI_gt_3 : 3 < PI.
Proof. pose proof PI2_3_2. lra. Qed.

(** The distance does not depend on the direction of travel. *)
Lemma calculateDistance_sym lat1 lng1 lat2 lng2 :
  calculateDistance lat1 lng1 lat2 lng2 = calculateDistance lat2 lng2 lat1 lng1.
Proof.
  unfold calculateDistance. cbv zeta.
  assert (haversine_a lat1 lng1 lat2 lng2 = haversine_a lat2 lng2 lat1 lng1) as ->; [| done].
  unfold haversine_a. cbv zeta.
  replace ((lat1 - lat2) * PI / 180 / 2) with (- ((lat2 - lat1) * PI / 180 / 2)) by lra.
  replace ((lng1 - lng2) * PI / 180 / 2) with (- ((lng2 - lng1) * PI / 180 / 2)) by lra.
  rewrite !sin_neg. ring.
Qed.

End GeoFacts.

(** ** Location history and cumulative distance *)

Section MetricsFacts.
Import Metrics.
Local Open Scope R_scope.

Implicit Types (h : list LocationHistory) (n : LocationHistory).
Implicit Types (st : State) (msg : BikeData) (msgs : list BikeData).

Lemma pushHistory_room h n :
  (length h < 100)%nat -> pushHistory h n = h ++ [n].
Proof.
  intros Hlen. unfold pushHistory. cbv zeta.
  rewrite length_app. simpl. case_decide; [lia | done].
Qed.

Lemma pushHistory_full h n :
  (100 <= length h)%nat -> pushHistory h n = drop 1 h ++ [n].
Proof.
  intros Hlen. unfold pushHistory. cbv zeta.
  rewrite length_app. simpl. case_decide; [| lia].
  destruct h as [| x h]; [simpl in Hlen; lia | done].
Qed.

Lemma length_pushHistory h n :
  (length h <= 100)%nat -> (length (pushHistory h n) <= 100)%nat.
Proof.
  intros Hlen. destruct (decide (length h < 100)%nat).
  - rewrite pushHistory_room by done. rewrite length_app. simpl. lia.
  - rewrite pushHistory_full by lia. rewrite length_app, length_drop. simpl. lia.
Qed.

Lemma last_pushHistory h n : last (pushHistory h n) = Some n.
Proof.
  destruct (decide (length h < 100)%nat).
  - rewrite pushHistory_room by done. apply last_snoc.
  - rewrite pushHistory_full by lia. apply last_snoc.
Qed.

Lemma distanceAdded_nonneg h n : 0 <= distanceAdded h n.
Proof.
  unfold distanceAdded. destruct (last h) as [l |]; [| lra].
  cbv zeta. destruct (Rgt_dec _ _); lra.
Qed.

Lemma distanceAdded_small h n l :
  last h = Some l ->
  calculateDistance (lh_lat l) (lh_lng l) (lh_lat n) (lh_lng n) <= 0.001 ->
  distanceAdded h n = 0.
Proof.
  intros Hl Hd. unfold distanceAdded. rewrite Hl. cbv zeta.
  destruct (Rgt_dec _ _); [lra | done].
Qed.

Lemma distanceAdded_large h n l :
  last h = Some l ->
  calculateDistance (lh_lat l) (lh_lng l) (lh_lat n) (lh_lng n) > 0.001 ->
  distanceAdded h n = calculateDistance (lh_lat l) (lh_lng l) (lh_lat n) (lh_lng n).
Proof.
  intros Hl Hd. unfold distanceAdded. rewrite Hl. cbv zeta.
  destruct (Rgt_dec _ _); [done | lra].
Qed.

Lemma onBikeData_rejected msg st : accepted msg = None -> onBikeData msg st = st.
Proof. intros H. unfold onBikeData. by rewrite H. Qed.

Lemma onBikeData_total msg st loc :
  accepted msg = Some loc ->
  totalCalculatedDistance (onBikeData msg st) =
  totalCalculatedDistance st +
  distanceAdded (locationHistory st) (mkLocationHistory (lat loc) (lng loc) (timestamp msg)).
Proof. intros H. unfold onBikeData. by rewrite H. Qed.

Lemma onBikeData_history msg st loc :
  accepted msg = Some loc ->
  locationHistory (onBikeData msg st) =
  pushHistory (locationHistory st) (mkLocationHistory (lat loc) (lng loc) (timestamp msg)).
Proof. intros H. unfold onBikeData. by rewrite H. Qed.

Lemma onBikeData_monotone msg st :
  totalCalculatedDistance st <= totalCalculatedDistance (onBikeData msg st).
Proof.
  destruct (accepted msg) as [loc |] eqn:Hacc.
  - rewrite (onBikeData_total _ _ _ Hacc).
    pose proof (distanceAdded_nonneg (locationHistory st)
                  (mkLocationHistory (lat loc) (lng loc) (timestamp msg))). lra.
  - rewrite onBikeData_rejected by done. lra.
Qed.

Lemma trace_step msgs st i s1 s2 :
  trace msgs st !! i = Some s1 -> trace msgs st !! S i = Some s2 ->
  exists msg, msgs !! i = Some msg /\ s2 = onBikeData msg s1.
Proof.
  revert st i. induction msgs as [| msg msgs IH]; intros st i H1 H2.
  - destruct i; simpl in H2; discriminate.
  - destruct i as [| i].
    + simpl in H1. injection H1 as <-. exists msg. split; [done |].
      simpl in H2. destruct msgs; simpl in H2; by injection H2.
    + simpl in H1, H2. destruct (IH _ _ H1 H2) as (m & Hm & ->). by exists m.
Qed.

Lemma feed_cons msg msgs st : feed (msg :: msgs) st = feed msgs (onBikeData msg st).
Proof. done. Qed.

Lemma last_trace msgs st : last (trace msgs st) = Some (feed msgs st).
Proof.
  revert st. induction msgs as [| msg msgs IH]; intros st; [done |].
  rewrite feed_cons, <- IH. simpl. by destruct msgs.
Qed.

Lemma feed_near msgs st :
  nearPrevious (last (locationHistory st)) msgs ->
  totalCalculatedDistance (feed msgs st) = totalCalculatedDistance st.
Proof.
  revert st. induction msgs as [| msg msgs IH]; intros st Hnear; [done |].
  rewrite feed_cons. simpl in Hnear.
  destruct (accepted msg) as [loc |] eqn:Hacc.
  - destruct Hnear as [Hd Hrest].
    rewrite IH.
    + rewrite (onBikeData_total _ _ _ Hacc).
      destruct (last (locationHistory st)) as [l |] eqn:Hl.
      * rewrite (distanceAdded_small _ _ l Hl); simpl; lra.
      * unfold distanceAdded. rewrite Hl. lra.
    + by rewrite (onBikeData_history _ _ _ Hacc), last_pushHistory.
  - rewrite onBikeData_rejected by done. by apply IH.
Qed.

End MetricsFacts.

(** C3.  While telemetry messages are fed to the metrics component, the
    cumulative distance never decreases from one message to the next: each
    message either leaves it unchanged or adds the distance from the last
    recorded location, which then exceeds 0.001 km; a message less than
    0.001 km away from the last recorded location adds exactly zero. *)
Theorem cumulative_distance_monotone (msgs : list Metrics.BikeData) (st : Metrics.State) :
  (forall i s1 s2,
      Metrics.trace msgs st !! i = Some s1 ->
      Metrics.trace msgs st !! S i = Some s2 ->
      (Metrics.totalCalculatedDistance s1 <= Metrics.totalCalculatedDistance s2)%R /\
      (Metrics.totalCalculatedDistance s2 = Metrics.totalCalculatedDistance s1 \/
       exists msg loc l,
         msgs !! i = Some msg /\ Metrics.accepted msg = Some loc /\
         last (Metrics.locationHistory s1) = Some l /\
         let d := calculateDistance (Metrics.lh_lat l) (Metrics.lh_lng l) (lat loc) (lng loc) in
         (d > 0.001)%R /\
         Metrics.totalCalculatedDistance s2 = (Metrics.totalCalculatedDistance s1 + d)%R)) /\
  (forall msg s loc l,
      Metrics.accepted msg = Some loc ->
      last (Metrics.locationHistory s) = Some l ->
      (calculateDistance (Metrics.lh_lat l) (Metrics.lh_lng l) (lat loc) (lng loc) < 0.001)%R ->
      Metrics.totalCalculatedDistance (Metrics.onBikeData msg s) =
      Metrics.totalCalculatedDistance s).
Proof.
  split.
  - intros i s1 s2 H1 H2.
    destruct (trace_step _ _ _ _ _ H1 H2) as (msg & Hmsg & ->).
    split; [apply onBikeData_monotone |].
    destruct (Metrics.accepted msg) as [loc |] eqn:Hacc.
    + rewrite (onBikeData_total _ _ _ Hacc).
      destruct (last (Metrics.locationHistory s1)) as [l |] eqn:Hl.
      * set (n := Metrics.mkLocationHistory (lat loc) (lng loc) (Metrics.timestamp msg)).
        destruct (Rgt_dec (calculateDistance (Metrics.lh_lat l) (Metrics.lh_lng l)
                             (lat loc) (lng loc)) 0.001) as [Hbig | Hsmall].
        -- right. exists msg, loc, l. split_and!; try done.
           cbv zeta. split; [done |].
           by rewrite (distanceAdded_large _ n l Hl Hbig).
        -- left. rewrite (distanceAdded_small _ n l Hl); simpl; lra.
      * left. unfold Metrics.distanceAdded. rewrite Hl. lra.
    + left. by rewrite onBikeData_rejected.
  - intros msg s loc l Hacc Hl Hd.
    rewrite (onBikeData_total _ _ _ Hacc).
    rewrite (distanceAdded_small _ _ l Hl); simpl; lra.
Qed.

Lemma cumulative_distance_monotone_witness :
  (Metrics.totalCalculatedDistance Metrics.init <=
   Metrics.totalCalculatedDistance (Metrics.onBikeData (sample_message 0 0 "t0") Metrics.init))%R /\
  Metrics.totalCalculatedDistance
    (Metrics.onBikeData (sample_message 0 0 "t0")
       (Metrics.onBikeData (sample_message 0 0 "t0") Metrics.init)) =
  Metrics.totalCalculatedDistance (Metrics.onBikeData (sample_message 0 0 "t0") Metrics.init).
Proof.
  pose proof (cumulative_distance_monotone
                [sample_message 0 0 "t0"; sample_message 0 0 "t0"] Metrics.init)
    as [Hstep Hzero].
  split.
  - apply (Hstep 0%nat Metrics.init
             (Metrics.onBikeData (sample_message 0 0 "t0") Metrics.init)); reflexivity.
  - apply (Hzero (sample_message 0 0 "t0")
             (Metrics.onBikeData (sample_message 0 0 "t0") Metrics.init)
             (mkLocation 0 0) (Metrics.mkLocationHistory 0 0 "t0")).
    + reflexivity.
    + reflexivity.
    + simpl. rewrite calculateDistance_same. lra.
Defined.

(** C4.  Delivering the same telemetry message twice in a row leaves the
    cumulative distance unchanged the second time, and a sequence of
    messages each less than one metre (0.001 km) from the location
    recorded just before it leaves the cumulative distance unchanged, so
    it never increases. *)
Theorem duplicate_and_small_moves_add_nothing :
  (forall (msg : Metrics.BikeData) (st : Metrics.State),
      Metrics.totalCalculatedDistance (Metrics.onBikeData msg (Metrics.onBikeData msg st)) =
      Metrics.totalCalculatedDistance (Metrics.onBikeData msg st)) /\
  (forall (msgs : list Metrics.BikeData) (st : Metrics.State),
      Metrics.nearPrevious (last (Metrics.locationHistory st)) msgs ->
      Metrics.totalCalculatedDistance (Metrics.feed msgs st) =
      Metrics.totalCalculatedDistance st /\
      (Metrics.totalCalculatedDistance (Metrics.feed msgs st) <=
       Metrics.totalCalculatedDistance st)%R).
Proof.
  split.
  - intros msg st.
    destruct (Metrics.accepted msg) as [loc |] eqn:Hacc.
    + rewrite (onBikeData_total msg (Metrics.onBikeData msg st) loc Hacc).
      rewrite (onBikeData_history _ _ _ Hacc).
      rewrite (distanceAdded_small _ _ _ (last_pushHistory _ _)); simpl.
      * lra.
      * rewrite calculateDistance_same. lra.
    + by rewrite !onBikeData_rejected.
  - intros msgs st Hnear. rewrite (feed_near _ _ Hnear). split; [done | lra].
Qed.

Lemma duplicate_and_small_moves_add_nothing_witness :
  Metrics.totalCalculatedDistance
    (Metrics.feed [sample_message 0 0 "t0"; sample_message 0.000001 0 "t1"] Metrics.init) =
  Metrics.totalCalculatedDistance Metrics.init.
Proof.
  apply (proj2 duplicate_and_small_moves_add_nothing
           [sample_message 0 0 "t0"; sample_message 0.000001 0 "t1"] Metrics.init).
  simpl. split; [exact I |]. split; [| exact I].
  rewrite calculateDistance_meridian by lra.
  pose proof PI_4. lra.
Defined.

(** ** Arrays searched with [findIndex] and updated in place *)

Section FindUpdate.
Context {A : Type} (P : A -> Prop) `{!forall x, Decision (P x)}.

Implicit Types (l : list A) (x u : A).

Lemma list_find_insert_same l i x u :
  list_find P l = Some (i, x) -> P u -> list_find P (<[i := u]> l) = Some (i, u).
Proof.
  intros (Hl & HPx & Hleast)%list_find_Some HPu.
  apply list_find_Some. split_and!.
  - apply list_lookup_insert_eq. by eapply lookup_lt_Some.
  - done.
  - intros j y Hj Hlt. rewrite list_lookup_insert_ne in Hj by lia. by eapply Hleast.
Qed.

Lemma list_find_snoc l u :
  list_find P l = None -> P u -> list_find P (l ++ [u]) = Some (length l, u).
Proof.
  intros Hnone HPu. rewrite list_find_app_r by done.
  simpl. by rewrite decide_True.
Qed.

Lemma list_find_insert_other (Q : A -> Prop) `{!forall x, Decision (Q x)} l i x u :
  l !! i = Some x -> ~ Q x -> ~ Q u ->
  list_find Q (<[i := u]> l) = list_find Q l.
Proof.
  revert i. induction l as [| y l IH]; intros i Hl HQx HQu; [done |].
  destruct i as [| i]; simpl in *.
  - injection Hl as ->. by rewrite !decide_False.
  - case_decide; [done |]. by rewrite (IH i).
Qed.

Lemma filter_insert_other (Q : A -> Prop) `{!forall x, Decision (Q x)} l i x u :
  l !! i = Some x -> ~ Q x -> ~ Q u -> filter Q (<[i := u]> l) = filter Q l.
Proof.
  intros Hl HQx HQu.
  rewrite insert_take_drop by (by eapply lookup_lt_Some).
  rewrite <- (take_drop_middle l i x Hl) at 3.
  rewrite !filter_app. by rewrite !filter_cons_False.
Qed.

Lemma filter_snoc_other (Q : A -> Prop) `{!forall x, Decision (Q x)} l u :
  ~ Q u -> filter Q (l ++ [u]) = filter Q l.
Proof.
  intros HQu. rewrite filter_app, filter_cons_False by done.
  simpl. by rewrite app_nil_r.
Qed.

End FindUpdate.

(** ** The geofence: classification and alerts *)

Section GeoFencingFacts.
Import GeoFencing.
Local Open Scope R_scope.

Implicit Types (st : State) (msg : BikeUpdateData) (prevBikes : list Bike).
Implicit Types (base : Location) (rad : R) (bid : string).

Lemma updatedBike_id base rad msg : bikeId (updatedBike base rad msg) = msg_bikeId msg.
Proof. unfold updatedBike. by destruct (location (data msg)). Qed.

Lemma updatedBike_fields base rad msg :
  currentLocation (updatedBike base rad msg) = location (data msg) /\
  avgSpeed (updatedBike base rad msg) = data_avgSpeed (data msg) /\
  batteryLevel (updatedBike base rad msg) = battery (data msg) /\
  lastSeen (updatedBike base rad msg) = timestamp msg.
Proof. unfold updatedBike. by destruct (location (data msg)). Qed.

Lemma updatedBike_outside base rad msg :
  isOutsideFence (updatedBike base rad msg) = true <->
  exists loc, location (data msg) = Some loc /\
              calculateDistance (lat base) (lng base) (lat loc) (lng loc) > rad.
Proof.
  unfold updatedBike. destruct (location (data msg)) as [loc |]; simpl.
  - rewrite bool_decide_eq_true. split; [by exists loc |]. by intros (? & [= <-] & ?).
  - split; [done |]. by intros (? & ? & ?).
Qed.

Lemma updatedBike_distance base rad msg loc :
  location (data msg) = Some loc ->
  distanceFromBase (updatedBike base rad msg) =
  calculateDistance (lat base) (lng base) (lat loc) (lng loc).
Proof. intros H. unfold updatedBike. by rewrite H. Qed.

Lemma find_storeBike msg prevBikes u :
  bikeId u = msg_bikeId msg -> find (msg_bikeId msg) (storeBike msg prevBikes u) = Some u.
Proof.
  intros Hid. unfold find, storeBike, findIndex.
  destruct (list_find _ prevBikes) as [[i x] |] eqn:Hfind; simpl.
  - by rewrite (list_find_insert_same _ _ _ _ _ Hfind Hid).
  - by rewrite (list_find_snoc _ _ _ Hfind Hid).
Qed.

Lemma find_storeBike_other msg prevBikes u bid :
  bikeId u = msg_bikeId msg -> bid <> msg_bikeId msg ->
  find bid (storeBike msg prevBikes u) = find bid prevBikes.
Proof.
  intros Hid Hne. unfold find, storeBike, findIndex.
  destruct (list_find (fun bike => bikeId bike = msg_bikeId msg) prevBikes)
    as [[i x] |] eqn:Hfind; simpl.
  - apply list_find_Some in Hfind as (Hl & Hx & _).
    rewrite (list_find_insert_other (fun bike => bikeId bike = bid) _ _ _ _ Hl); congruence.
  - destruct (list_find (fun bike => bikeId bike = bid) prevBikes) as [[j y] |] eqn:Hb.
    + by rewrite (list_find_app_l _ _ _ _ _ Hb).
    + rewrite list_find_app_r by done. simpl. rewrite decide_False; [done | congruence].
Qed.

Lemma filter_storeBike_others msg prevBikes u :
  bikeId u = msg_bikeId msg ->
  filter (fun bike => bikeId bike <> msg_bikeId msg) (storeBike msg prevBikes u) =
  filter (fun bike => bikeId bike <> msg_bikeId msg) prevBikes.
Proof.
  intros Hid. unfold storeBike, findIndex.
  destruct (list_find _ prevBikes) as [[i x] |] eqn:Hfind; simpl.
  - apply list_find_Some in Hfind as (Hl & Hx & _).
    apply (filter_insert_other _ _ _ x); [done | |]; intros Hn; by apply Hn.
  - apply filter_snoc_other. intros Hn. by apply Hn.
Qed.

Lemma length_storeBike msg prevBikes u :
  (length prevBikes <= length (storeBike msg prevBikes u))%nat.
Proof.
  unfold storeBike. destruct (findIndex _ _).
  - by rewrite length_insert.
  - rewrite length_app. simpl. lia.
Qed.

(** The alert decision, read off the stored classification. *)
Lemma newAlert_is_Some now clock msg prevBikes base rad :
  is_Some (newAlert now clock msg prevBikes (updatedBike base rad msg)) <->
  isOutsideFence (updatedBike base rad msg) = true /\
  classification (msg_bikeId msg) prevBikes <> Some true.
Proof.
  unfold newAlert, classification.
  destruct (location (data msg)) as [loc |] eqn:Hloc.
  - destruct (isOutsideFence (updatedBike base rad msg)) eqn:Hout.
    + destruct (find (msg_bikeId msg) prevBikes) as [existing |]; simpl.
      * destruct (isOutsideFence existing); simpl.
        -- split; [by intros [? ?] | by intros [_ ?]].
        -- split; [done | eauto].
      * split; [done | eauto].
    + split; [by intros [? ?] | by intros [? _]].
  - split; [by intros [? ?] |].
    intros [Hout _]. apply updatedBike_outside in Hout as (? & ? & _). congruence.
Qed.

Lemma length_pushAlert a (prev : list Alert) : (length (pushAlert a prev) <= 5)%nat.
Proof. unfold pushAlert. simpl. rewrite length_take. lia. Qed.

Lemma emitted_already_outside base rad bid (msgs : list (Z * string * BikeUpdateData)) prevBikes :
  Forall (fun m => msg_bikeId m.2 = bid /\ isOutsideFence (updatedBike base rad m.2) = true) msgs ->
  classification bid prevBikes = Some true ->
  emitted base rad msgs prevBikes = replicate (length msgs) None.
Proof.
  revert prevBikes. induction msgs as [| [[now clock] msg] msgs IH]; intros prevBikes Hall Hcls.
  { done. }
  apply Forall_cons in Hall as [[Hid Hout] Hall]. simpl in Hid, Hout. simpl.
  f_equal.
  - apply eq_None_not_Some. rewrite newAlert_is_Some. rewrite Hid, Hcls. by intros [_ ?].
  - apply IH; [done |]. unfold classification. rewrite <- Hid.
    rewrite find_storeBike by apply updatedBike_id. simpl. by rewrite Hout.
Qed.

Lemma processBike_consistent base rad bike : consistent base rad (processBike base rad bike).
Proof.
  unfold consistent, processBike. intros loc.
  destruct (currentLocation bike) as [l |] eqn:Hl; simpl.
  - intros [= <-]. apply bool_decide_eq_true.
  - intros H. congruence.
Qed.

Lemma updatedBike_consistent base rad msg : consistent base rad (updatedBike base rad msg).
Proof.
  unfold consistent. intros loc Hloc.
  destruct (updatedBike_fields base rad msg) as (Hcur & _). rewrite Hcur in Hloc.
  rewrite updatedBike_outside. split.
  - intros (l & Hl & Hd). congruence.
  - intros Hd. by exists loc.
Qed.

End GeoFencingFacts.

(** C1.  A telemetry message makes the geofence handler emit an alert
    exactly when the entity was unknown or classified inside before the
    message and is classified outside after it; the emitted alert is put
    at the head of the alert buffer.  An entity that keeps reporting
    positions outside the fence, starting unknown or inside, gets one
    alert at the first message and none at the following ones. *)
Theorem alert_iff_rising_edge :
  (forall now clock msg st,
      let emission :=
        GeoFencing.newAlert now clock msg (GeoFencing.bikes st)
          (GeoFencing.updatedBike (GeoFencing.baseLocation st) (GeoFencing.radius st) msg) in
      (is_Some emission <->
       (GeoFencing.classification (GeoFencing.msg_bikeId msg) (GeoFencing.bikes st) = None \/
        GeoFencing.classification (GeoFencing.msg_bikeId msg) (GeoFencing.bikes st) = Some false) /\
       GeoFencing.classification (GeoFencing.msg_bikeId msg)
         (GeoFencing.bikes (GeoFencing.onBikeUpdate now clock msg st)) = Some true) /\
      GeoFencing.alerts (GeoFencing.onBikeUpdate now clock msg st) =
      match emission with
      | Some alert => alert :: take 4 (GeoFencing.alerts st)
      | None => GeoFencing.alerts st
      end) /\
  (forall base rad bid first (rest : list (Z * string * GeoFencing.BikeUpdateData)) prevBikes,
      Forall (fun m => GeoFencing.msg_bikeId m.2 = bid /\
                       exists loc, GeoFencing.location (GeoFencing.data m.2) = Some loc /\
                                   (calculateDistance (lat base) (lng base) (lat loc) (lng loc) > rad)%R)
             (first :: rest) ->
      GeoFencing.classification bid prevBikes <> Some true ->
      exists alert,
        GeoFencing.emitted base rad (first :: rest) prevBikes =
        Some alert :: replicate (length rest) None).
Proof.
  split.
  - intros now clock msg st. cbv zeta. split; [| done].
    rewrite newAlert_is_Some.
    unfold GeoFencing.onBikeUpdate. cbn [GeoFencing.bikes].
    unfold GeoFencing.classification at 4.
    rewrite find_storeBike by apply updatedBike_id.
    cbn [fmap option_fmap option_map].
    destruct (GeoFencing.classification _ _) as [[|] |].
    + split; [by intros [_ ?] | by intros [[? | ?] _]].
    + split; [intros [-> _]; eauto | by intros [_ [= ->]]].
    + split; [intros [-> _]; eauto | by intros [_ [= ->]]].
  - intros base rad bid [[now clock] msg] rest prevBikes Hall Hprev.
    apply Forall_cons in Hall as [[Hid Hout] Hall]. simpl in Hid, Hout.
    assert (GeoFencing.isOutsideFence (GeoFencing.updatedBike base rad msg) = true) as Hout'.
    { by apply updatedBike_outside. }
    destruct (proj2 (newAlert_is_Some now clock msg prevBikes base rad)) as [alert Halert].
    { split; [done | by rewrite Hid]. }
    exists alert. simpl. rewrite Halert. f_equal.
    apply (emitted_already_outside base rad bid).
    + eapply Forall_impl; [exact Hall |]. intros m [? ?]. split; [done |].
      by apply updatedBike_outside.
    + unfold GeoFencing.classification. rewrite <- Hid.
      rewrite find_storeBike by apply updatedBike_id. simpl. by rewrite Hout'.
Qed.

Lemma example_distance :
  (2 < calculateDistance (lat mumbai) (lng mumbai) (lat north_of_mumbai) (lng north_of_mumbai) < 3)%R.
Proof.
  simpl. rewrite calculateDistance_meridian by lra.
  pose proof PI_gt_3. pose proof PI_4. lra.
Qed.

Lemma alert_iff_rising_edge_witness :
  exists alert,
    GeoFencing.emitted mumbai 1
      [(1000%Z, "10:00:00", report "bike-1" north_of_mumbai "t1");
       (2000%Z, "10:00:05", report "bike-1" north_of_mumbai "t2")] [] =
    [Some alert; None].
Proof.
  apply (proj2 alert_iff_rising_edge mumbai 1%R "bike-1"
           (1000%Z, "10:00:00", report "bike-1" north_of_mumbai "t1")
           [(2000%Z, "10:00:05", report "bike-1" north_of_mumbai "t2")] []).
  - repeat constructor; simpl; exists north_of_mumbai;
      (split; [reflexivity | pose proof example_distance; simpl in *; lra]).
  - discriminate.
Defined.

(** ** Bounded buffers *)

Lemma history_bounded_step (st : Metrics.State) (op : Metrics.Op) :
  length (Metrics.locationHistory st) <= 100 ->
  length (Metrics.locationHistory (Metrics.step st op)) <= 100.
Proof.
  intros Hlen. destruct op as [msg | | la lo]; simpl.
  - destruct (Metrics.accepted msg) as [loc |] eqn:Hacc.
    + rewrite (onBikeData_history _ _ _ Hacc). by apply length_pushHistory.
    + by rewrite onBikeData_rejected.
  - lia.
  - done.
Qed.

Lemma history_bounded_run (ops : list Metrics.Op) (st : Metrics.State) :
  length (Metrics.locationHistory st) <= 100 ->
  length (Metrics.locationHistory (Metrics.run ops st)) <= 100.
Proof.
  revert st. induction ops as [| op ops IH]; intros st Hlen; [done |].
  apply IH. by apply history_bounded_step.
Qed.

Lemma alerts_bounded_step (st : GeoFencing.State) (op : GeoFencing.Op) :
  length (GeoFencing.alerts st) <= 5 ->
  length (GeoFencing.alerts (GeoFencing.step st op)) <= 5.
Proof.
  intros Hlen.
  destruct op as [now clock msg | response | latlng response | value response | response |];
    simpl.
  - destruct (GeoFencing.trackingEnabled st); [| done]. simpl.
    destruct (GeoFencing.newAlert _ _ _ _ _); [apply length_pushAlert | done].
  - by destruct response.
  - unfold GeoFencing.changeCenter, GeoFencing.connectEffect. simpl.
    destruct (GeoFencing.trackingEnabled st); [| done]. by destruct response.
  - unfold GeoFencing.changeRadius, GeoFencing.connectEffect, GeoFencing.handleRadiusChange.
    cbv zeta. destruct (Rgt_dec value 0); simpl.
    + case_decide; [done |]. simpl.
      destruct (GeoFencing.trackingEnabled st); [| done]. by destruct response.
    + by rewrite decide_True.
  - unfold GeoFencing.switchTracking, GeoFencing.connectEffect, GeoFencing.toggleTracking.
    cbn [GeoFencing.trackingEnabled].
    destruct (GeoFencing.trackingEnabled st); cbn [negb]; [done |].
    destruct response; simpl; lia.
  - lia.
Qed.

Lemma alerts_bounded_run (ops : list GeoFencing.Op) (st : GeoFencing.State) :
  length (GeoFencing.alerts st) <= 5 ->
  length (GeoFencing.alerts (GeoFencing.run ops st)) <= 5.
Proof.
  revert st. induction ops as [| op ops IH]; intros st Hlen; [done |].
  apply IH. by apply alerts_bounded_step.
Qed.

(** C7.  Whatever happens to the components, the location history never
    holds more than 100 entries and the alert buffer never more than 5.
    A location accepted while the history is full evicts the oldest entry
    (the first) and goes last; an alert is put first, and when the buffer
    is full the oldest alert (the last) is dropped. *)
Theorem buffers_bounded :
  (forall ops, length (Metrics.locationHistory (Metrics.run ops Metrics.init)) <= 100) /\
  (forall msg st loc,
      Metrics.accepted msg = Some loc ->
      length (Metrics.locationHistory st) = 100 ->
      Metrics.locationHistory (Metrics.onBikeData msg st) =
      drop 1 (Metrics.locationHistory st) ++
      [Metrics.mkLocationHistory (lat loc) (lng loc) (Metrics.timestamp msg)]) /\
  (forall ops, length (GeoFencing.alerts (GeoFencing.run ops GeoFencing.init)) <= 5) /\
  (forall now clock msg st alert older oldest,
      GeoFencing.newAlert now clock msg (GeoFencing.bikes st)
        (GeoFencing.updatedBike (GeoFencing.baseLocation st) (GeoFencing.radius st) msg)
      = Some alert ->
      GeoFencing.alerts st = older ++ [oldest] ->
      length older = 4 ->
      GeoFencing.alerts (GeoFencing.onBikeUpdate now clock msg st) = alert :: older).
Proof.
  split_and!.
  - intros ops. apply history_bounded_run. simpl. lia.
  - intros msg st loc Hacc Hlen.
    rewrite (onBikeData_history _ _ _ Hacc). apply pushHistory_full. lia.
  - intros ops. apply alerts_bounded_run. simpl. lia.
  - intros now clock msg st alert older oldest Halert Hbuf Hlen.
    unfold GeoFencing.onBikeUpdate. cbn [GeoFencing.alerts]. rewrite Halert, Hbuf.
    unfold GeoFencing.pushAlert. f_equal.
    rewrite take_app_length'; done.
Qed.

Lemma buffers_bounded_witness :
  (let st := Metrics.run (replicate 100 (Metrics.OpBikeData (sample_message 0 0 "t0")))
               Metrics.init in
   Metrics.locationHistory (Metrics.onBikeData (sample_message 1 1 "t1") st) =
   drop 1 (Metrics.locationHistory st) ++ [Metrics.mkLocationHistory 1 1 "t1"]) /\
  (exists alert,
      GeoFencing.alerts
        (GeoFencing.onBikeUpdate 1000 "10:00:00" (report "bike-1" north_of_mumbai "t1")
           full_alert_state) =
      [alert; sample_alert 5; sample_alert 4; sample_alert 3; sample_alert 2]).
Proof.
  destruct buffers_bounded as (_ & Hevict & _ & Hdrop).
  split.
  - cbv zeta. apply (Hevict (sample_message 1 1 "t1") _ (mkLocation 1 1)); reflexivity.
  - destruct (proj2 (newAlert_is_Some 1000%Z "10:00:00" (report "bike-1" north_of_mumbai "t1")
                       [] mumbai 1%R)) as [alert Halert].
    { split; [| discriminate].
      apply updatedBike_outside. exists north_of_mumbai.
      split; [reflexivity | pose proof example_distance; simpl in *; lra]. }
    exists alert.
    apply (Hdrop 1000%Z "10:00:00" (report "bike-1" north_of_mumbai "t1") full_alert_state
             alert [sample_alert 5; sample_alert 4; sample_alert 3; sample_alert 2]
             (sample_alert 1)); [exact Halert | reflexivity | reflexivity].
Defined.

(** ** Fence configuration changes *)

Section FenceChangeFacts.
Import GeoFencing.
Local Open Scope R_scope.

Implicit Types (st : State) (response : option (list Bike)) (value : R).

Lemma fetchBikes_alerts response st : alerts (fetchBikes response st) = alerts st.
Proof. by destruct response. Qed.

Lemma connectEffect_alerts response st : alerts (connectEffect response st) = alerts st.
Proof.
  unfold connectEffect. destruct (trackingEnabled st); [apply fetchBikes_alerts | done].
Qed.

Lemma connectEffect_fence response st :
  baseLocation (connectEffect response st) = baseLocation st /\
  radius (connectEffect response st) = radius st /\
  trackingEnabled (connectEffect response st) = trackingEnabled st.
Proof.
  unfold connectEffect. destruct (trackingEnabled st) eqn:Hte; [| done].
  by destruct response.
Qed.

Lemma connectEffect_disabled response st :
  trackingEnabled st = false -> connectEffect response st = st.
Proof. intros H. unfold connectEffect. by rewrite H. Qed.

Lemma connectEffect_failed st : connectEffect None st = st.
Proof. unfold connectEffect. by destruct (trackingEnabled st). Qed.

Lemma connectEffect_bikes serverBikes st :
  trackingEnabled st = true ->
  bikes (connectEffect (Some serverBikes) st) =
  map (processBike (baseLocation st) (radius st)) serverBikes.
Proof. intros H. unfold connectEffect. by rewrite H. Qed.

Lemma changeCenter_alerts latlng response st :
  alerts (changeCenter latlng response st) = alerts st.
Proof. unfold changeCenter. by rewrite connectEffect_alerts. Qed.

Lemma changeRadius_alerts value response st :
  alerts (changeRadius value response st) = alerts st.
Proof.
  unfold changeRadius, handleRadiusChange. cbv zeta.
  destruct (Rgt_dec value 0); case_decide; rewrite ?connectEffect_alerts; done.
Qed.

Lemma changeRadius_fence value response st :
  value > 0 ->
  baseLocation (changeRadius value response st) = baseLocation st /\
  radius (changeRadius value response st) = value /\
  trackingEnabled (changeRadius value response st) = trackingEnabled st.
Proof.
  intros Hpos. unfold changeRadius, handleRadiusChange. cbv zeta.
  destruct (Rgt_dec value 0); [| lra].
  case_decide; [done |].
  destruct (connectEffect_fence response
              {| baseLocation := baseLocation st; radius := value; bikes := bikes st;
                 alerts := alerts st; trackingEnabled := trackingEnabled st;
                 lastUpdate := lastUpdate st |}) as (-> & -> & ->).
  done.
Qed.

Lemma changeRadius_bikes_stale value response st :
  trackingEnabled st = false \/ response = None ->
  bikes (changeRadius value response st) = bikes st.
Proof.
  intros Hgate. unfold changeRadius, handleRadiusChange. cbv zeta.
  destruct (Rgt_dec value 0); case_decide; try done.
  destruct Hgate as [Hoff | ->].
  - by rewrite connectEffect_disabled.
  - by rewrite connectEffect_failed.
Qed.

Lemma changeRadius_bikes_fresh value serverBikes st :
  trackingEnabled st = true -> value > 0 -> value <> radius st ->
  bikes (changeRadius value (Some serverBikes) st) =
  map (processBike (baseLocation st) value) serverBikes.
Proof.
  intros Hon Hpos Hne. unfold changeRadius, handleRadiusChange. cbv zeta.
  destruct (Rgt_dec value 0); [| lra].
  case_decide; [done |]. by rewrite connectEffect_bikes.
Qed.

Lemma changeCenter_bikes_stale latlng response st :
  trackingEnabled st = false \/ response = None ->
  bikes (changeCenter latlng response st) = bikes st.
Proof.
  intros [Hoff | ->]; unfold changeCenter.
  - by rewrite connectEffect_disabled.
  - by rewrite connectEffect_failed.
Qed.

Lemma changeCenter_bikes_fresh latlng serverBikes st :
  trackingEnabled st = true ->
  bikes (changeCenter latlng (Some serverBikes) st) =
  map (processBike (mkLocation (lat latlng) (lng latlng)) (radius st)) serverBikes.
Proof. intros Hon. unfold changeCenter. by rewrite connectEffect_bikes. Qed.

Lemma processed_consistent base rad (serverBikes : list Bike) :
  Forall (consistent base rad) (map (processBike base rad) serverBikes).
Proof.
  apply Forall_forall. intros bike (b & -> & _)%list_elem_of_fmap.
  apply processBike_consistent.
Qed.

End FenceChangeFacts.

(** C8, as stated, fails: while tracking is disabled, or when the refetch
    triggered by the change fails, a radius change leaves the stored
    entity classified outside although it now lies inside the fence. *)
Lemma fence_change_keeps_stale_classification :
  (let st0 := GeoFencing.run
                [GeoFencing.OpToggleTracking (Some []);
                 GeoFencing.OpBikeUpdate 1000 "10:00:00" (report "bike-1" north_of_mumbai "t1");
                 GeoFencing.OpToggleTracking None] GeoFencing.init in
   let st1 := GeoFencing.changeRadius 5 (Some []) st0 in
   GeoFencing.radius st1 = 5%R /\
   ~ Forall (GeoFencing.consistent (GeoFencing.baseLocation st1) (GeoFencing.radius st1))
       (GeoFencing.bikes st1)) /\
  (let st0 := GeoFencing.run
                [GeoFencing.OpToggleTracking (Some []);
                 GeoFencing.OpBikeUpdate 1000 "10:00:00" (report "bike-1" north_of_mumbai "t1")]
                GeoFencing.init in
   let st1 := GeoFencing.changeRadius 5 None st0 in
   GeoFencing.radius st1 = 5%R /\
   ~ Forall (GeoFencing.consistent (GeoFencing.baseLocation st1) (GeoFencing.radius st1))
       (GeoFencing.bikes st1)).
Proof.
  assert (GeoFencing.isOutsideFence
            (GeoFencing.updatedBike mumbai 1 (report "bike-1" north_of_mumbai "t1")) = true)
    as Hout.
  { apply updatedBike_outside. exists north_of_mumbai.
    split; [reflexivity | pose proof example_distance; simpl in *; lra]. }
  assert (~ GeoFencing.consistent mumbai 5
              (GeoFencing.updatedBike mumbai 1 (report "bike-1" north_of_mumbai "t1")))
    as Hstale.
  { intros Hcons. specialize (Hcons north_of_mumbai eq_refl).
    apply Hcons in Hout. pose proof example_distance. simpl in *. lra. }
  split; cbv zeta.
  - set (st0 := GeoFencing.run _ _).
    destruct (changeRadius_fence 5 (Some []) st0) as (Hbase & Hrad & _); [lra |].
    rewrite Hbase, Hrad, changeRadius_bikes_stale by (left; reflexivity).
    split; [done |]. intros Hall. apply Hstale.
    by apply (Forall_inv Hall).
  - set (st0 := GeoFencing.run _ _).
    destruct (changeRadius_fence 5 None st0) as (Hbase & Hrad & _); [lra |].
    rewrite Hbase, Hrad, changeRadius_bikes_stale by (by right).
    split; [done |]. intros Hall. apply Hstale.
    by apply (Forall_inv Hall).
Qed.

(** C8, amended.  A change of the fence centre or radius never touches
    the alert buffer.  While tracking is enabled and the refetch that the
    change triggers succeeds, every fetched entity is classified
    consistently with the new configuration, silently; while tracking is
    disabled, or when the refetch fails, the stored entities are left as
    they were.  With tracking enabled, changing the radius from 1 km to
    5 km and back reclassifies an entity about 2.1 km from the centre from
    outside to inside to outside without any alert. *)
Theorem fence_change_silent :
  (forall st latlng value response,
      GeoFencing.alerts (GeoFencing.changeCenter latlng response st) = GeoFencing.alerts st /\
      GeoFencing.alerts (GeoFencing.changeRadius value response st) = GeoFencing.alerts st) /\
  (forall st latlng serverBikes,
      GeoFencing.trackingEnabled st = true ->
      let st' := GeoFencing.changeCenter latlng (Some serverBikes) st in
      GeoFencing.baseLocation st' = mkLocation (lat latlng) (lng latlng) /\
      Forall (GeoFencing.consistent (GeoFencing.baseLocation st') (GeoFencing.radius st'))
        (GeoFencing.bikes st')) /\
  (forall st value serverBikes,
      GeoFencing.trackingEnabled st = true ->
      (value > 0)%R -> value <> GeoFencing.radius st ->
      let st' := GeoFencing.changeRadius value (Some serverBikes) st in
      GeoFencing.radius st' = value /\
      Forall (GeoFencing.consistent (GeoFencing.baseLocation st') (GeoFencing.radius st'))
        (GeoFencing.bikes st')) /\
  (forall st latlng value response,
      GeoFencing.trackingEnabled st = false \/ response = None ->
      GeoFencing.bikes (GeoFencing.changeCenter latlng response st) = GeoFencing.bikes st /\
      GeoFencing.bikes (GeoFencing.changeRadius value response st) = GeoFencing.bikes st) /\
  (forall st bike,
      GeoFencing.trackingEnabled st = true ->
      GeoFencing.baseLocation st = mumbai ->
      GeoFencing.radius st = 1%R ->
      GeoFencing.currentLocation bike = Some north_of_mumbai ->
      let st1 := GeoFencing.fetchBikes (Some [bike]) st in
      let st2 := GeoFencing.changeRadius 5 (Some [bike]) st1 in
      let st3 := GeoFencing.changeRadius 1 (Some [bike]) st2 in
      GeoFencing.isOutsideFence <$> GeoFencing.bikes st1 = [true] /\
      GeoFencing.isOutsideFence <$> GeoFencing.bikes st2 = [false] /\
      GeoFencing.isOutsideFence <$> GeoFencing.bikes st3 = [true] /\
      GeoFencing.alerts st3 = GeoFencing.alerts st).
Proof.
  split_and!.
  - intros st latlng value response.
    by rewrite changeCenter_alerts, changeRadius_alerts.
  - intros st latlng serverBikes Hon. cbv zeta.
    rewrite changeCenter_bikes_fresh by done.
    unfold GeoFencing.changeCenter.
    destruct (connectEffect_fence (Some serverBikes) (GeoFencing.handleMapClick latlng st))
      as (-> & -> & _).
    split; [done |]. apply processed_consistent.
  - intros st value serverBikes Hon Hpos Hne. cbv zeta.
    rewrite changeRadius_bikes_fresh by done.
    destruct (changeRadius_fence value (Some serverBikes) st Hpos) as (-> & -> & _).
    split; [done |]. apply processed_consistent.
  - intros st latlng value response Hgate.
    by rewrite changeCenter_bikes_stale, changeRadius_bikes_stale.
  - intros st bike Hon Hbase Hrad Hloc. cbv zeta.
    pose proof example_distance as Hd. simpl in Hd.
    set (st1 := GeoFencing.fetchBikes (Some [bike]) st).
    assert (GeoFencing.trackingEnabled st1 = true /\ GeoFencing.baseLocation st1 = mumbai /\
            GeoFencing.radius st1 = 1%R) as (Hon1 & Hbase1 & Hrad1) by done.
    set (st2 := GeoFencing.changeRadius 5 (Some [bike]) st1).
    destruct (changeRadius_fence 5 (Some [bike]) st1) as (Hbase2 & Hrad2 & Hon2); [lra |].
    fold st2 in Hbase2, Hrad2, Hon2.
    assert (forall base rad,
               GeoFencing.isOutsideFence <$> map (GeoFencing.processBike base rad) [bike] =
               [bool_decide (calculateDistance (lat base) (lng base)
                               (lat north_of_mumbai) (lng north_of_mumbai) > rad)%R]) as Hcls.
    { intros base rad. cbn [map fmap list_fmap]. unfold GeoFencing.processBike. by rewrite Hloc. }
    split_and!.
    + change (GeoFencing.bikes st1)
        with (map (GeoFencing.processBike (GeoFencing.baseLocation st) (GeoFencing.radius st))
                [bike]).
      rewrite Hcls, Hbase, Hrad. simpl. rewrite bool_decide_eq_true_2; [done | lra].
    + unfold st2. rewrite changeRadius_bikes_fresh; [| done | lra | rewrite Hrad1; lra].
      rewrite Hcls, Hbase1. simpl. rewrite bool_decide_eq_false_2; [done | lra].
    + rewrite changeRadius_bikes_fresh; [| congruence | lra | rewrite Hrad2; lra].
      rewrite Hcls, Hbase2, Hbase1. simpl. rewrite bool_decide_eq_true_2; [done | lra].
    + unfold st2, st1. by rewrite !changeRadius_alerts, fetchBikes_alerts.
Qed.

Lemma fence_change_silent_witness :
  let st := GeoFencing.toggleTracking GeoFencing.init in
  let st1 := GeoFencing.fetchBikes (Some [fetched_bike]) st in
  let st2 := GeoFencing.changeRadius 5 (Some [fetched_bike]) st1 in
  let st3 := GeoFencing.changeRadius 1 (Some [fetched_bike]) st2 in
  GeoFencing.isOutsideFence <$> GeoFencing.bikes st1 = [true] /\
  GeoFencing.isOutsideFence <$> GeoFencing.bikes st2 = [false] /\
  GeoFencing.isOutsideFence <$> GeoFencing.bikes st3 = [true] /\
  GeoFencing.alerts st3 = [].
Proof.
  destruct fence_change_silent as (_ & _ & _ & _ & Hexample).
  apply (Hexample (GeoFencing.toggleTracking GeoFencing.init) fetched_bike); reflexivity.
Defined.

(** ** The tracking map: entity list and routes *)

Section TrackingMapFacts.
Import TrackingMap.
Local Open Scope R_scope.

Implicit Types (st : State) (msg : BikeUpdateData) (prevBikes bs : list Bike).
Implicit Types (prevRoutes : Routes) (bid : string) (loc : Location).

Lemma find_updateBikes msg prevBikes :
  exists bike,
    find (msg_bikeId msg) (updateBikes msg prevBikes) = Some bike /\
    bikeId bike = msg_bikeId msg /\
    currentLocation bike = location (data msg) /\
    avgSpeed bike = data_avgSpeed (data msg) /\
    batteryLevel bike = battery (data msg) /\
    lastSeen bike = timestamp msg.
Proof.
  unfold find, updateBikes.
  destruct (list_find _ prevBikes) as [[i x] |] eqn:Hfind.
  - pose proof Hfind as (_ & Hx & _)%list_find_Some.
    eexists. split.
    + erewrite list_find_insert_same; [done | exact Hfind | done].
    + done.
  - eexists. split.
    + erewrite list_find_snoc; [done | exact Hfind | done].
    + done.
Qed.

Lemma find_updateBikes_other msg prevBikes bid :
  bid <> msg_bikeId msg -> find bid (updateBikes msg prevBikes) = find bid prevBikes.
Proof.
  intros Hne. unfold find, updateBikes.
  destruct (list_find (fun bike => bikeId bike = msg_bikeId msg) prevBikes)
    as [[i x] |] eqn:Hfind.
  - apply list_find_Some in Hfind as (Hl & Hx & _).
    rewrite (list_find_insert_other (fun bike => bikeId bike = bid) _ _ _ _ Hl);
      simpl; congruence.
  - destruct (list_find (fun bike => bikeId bike = bid) prevBikes) as [[j y] |] eqn:Hb.
    + by rewrite (list_find_app_l _ _ _ _ _ Hb).
    + rewrite list_find_app_r by done. simpl. rewrite decide_False; [done | simpl; congruence].
Qed.

Lemma filter_updateBikes_others msg prevBikes :
  filter (fun bike => bikeId bike <> msg_bikeId msg) (updateBikes msg prevBikes) =
  filter (fun bike => bikeId bike <> msg_bikeId msg) prevBikes.
Proof.
  unfold updateBikes.
  destruct (list_find _ prevBikes) as [[i x] |] eqn:Hfind.
  - apply list_find_Some in Hfind as (Hl & Hx & _).
    apply (filter_insert_other _ _ _ x); [done | |]; intros Hn; by apply Hn.
  - apply filter_snoc_other. intros Hn. by apply Hn.
Qed.

Lemma length_updateBikes msg prevBikes :
  (length prevBikes <= length (updateBikes msg prevBikes))%nat.
Proof.
  unfold updateBikes. destruct (list_find _ prevBikes) as [[i x] |].
  - by rewrite length_insert.
  - rewrite length_app. simpl. lia.
Qed.

Lemma routeOf_own bid prevRoutes route :
  prevRoutes !! bid = Some route -> routeOf bid prevRoutes = Some route.
Proof. intros H. unfold routeOf. by rewrite H. Qed.

Lemma recordPoint_append bid loc prevRoutes route lastPoint :
  prevRoutes !! bid = Some route -> last route = Some lastPoint ->
  lastPoint <> (lat loc, lng loc) ->
  recordPoint bid loc prevRoutes = Some (<[bid := route ++ [(lat loc, lng loc)]]> prevRoutes).
Proof.
  intros Hroute Hlast Hne. unfold recordPoint. rewrite (routeOf_own _ _ _ Hroute).
  cbv zeta. rewrite Hlast. rewrite decide_True; [done |].
  destruct lastPoint as [a b]. simpl.
  destruct (decide (a = lat loc)) as [-> |]; [| by left].
  right. congruence.
Qed.

Lemma recordPoint_duplicate bid loc prevRoutes route :
  prevRoutes !! bid = Some route -> last route = Some (lat loc, lng loc) ->
  recordPoint bid loc prevRoutes = Some prevRoutes.
Proof.
  intros Hroute Hlast. unfold recordPoint. rewrite (routeOf_own _ _ _ Hroute).
  cbv zeta. rewrite Hlast. rewrite decide_False; [done |]. simpl. by intros [? | ?].
Qed.

(** What the routes updater can do: throw, leave the routes alone, or
    append the point to the route of [bid]. *)
Lemma recordPoint_cases bid loc prevRoutes :
  (recordPoint bid loc prevRoutes = None /\
   prevRoutes !! bid = None /\ bid ∈ inheritedMembers) \/
  recordPoint bid loc prevRoutes = Some prevRoutes \/
  exists route,
    route = default [] (prevRoutes !! bid) /\
    (prevRoutes !! bid = None -> bid ∉ inheritedMembers) /\
    (forall q, last route = Some q -> q <> (lat loc, lng loc)) /\
    recordPoint bid loc prevRoutes = Some (<[bid := route ++ [(lat loc, lng loc)]]> prevRoutes).
Proof.
  unfold recordPoint, routeOf.
  destruct (prevRoutes !! bid) as [route |] eqn:Hroute.
  - cbv zeta. destruct (last route) as [lastPoint |] eqn:Hlast.
    + case_decide as Hne; [| by right; left].
      right; right. exists route. split_and!; try done.
      intros q Hq Heq. rewrite Hlast in Hq. injection Hq as Hq. subst q.
      rewrite Heq in Hne. simpl in Hne. by destruct Hne.
    + right; right. exists route. split_and!; try done. intros q Hq. congruence.
  - case_decide as Hin.
    + by left.
    + right; right. exists []. split_and!; done.
Qed.

Lemma recordPoint_other bid loc prevRoutes rs other :
  recordPoint bid loc prevRoutes = Some rs -> other <> bid -> rs !! other = prevRoutes !! other.
Proof.
  intros Hrs Hne.
  destruct (recordPoint_cases bid loc prevRoutes)
    as [[Hnone _] | [Hsame | (route & _ & _ & _ & Happ)]].
  - congruence.
  - congruence.
  - rewrite Happ in Hrs. injection Hrs as <-. by rewrite lookup_insert_ne.
Qed.

Lemma onBikeUpdate_recorded clock msg st loc rs :
  isTrackingRoutes st = true -> location (data msg) = Some loc ->
  recordPoint (msg_bikeId msg) loc (routes st) = Some rs ->
  routes (onBikeUpdate clock msg st) = rs /\
  crashed (onBikeUpdate clock msg st) = crashed st.
Proof.
  intros Hon Hloc Hrs. unfold onBikeUpdate, updateRoutes. cbn [routes crashed].
  by rewrite Hon, Hloc, Hrs.
Qed.

Lemma onBikeUpdate_threw clock msg st loc :
  isTrackingRoutes st = true -> location (data msg) = Some loc ->
  recordPoint (msg_bikeId msg) loc (routes st) = None ->
  routes (onBikeUpdate clock msg st) = routes st /\
  crashed (onBikeUpdate clock msg st) = true.
Proof.
  intros Hon Hloc Hrs. unfold onBikeUpdate, updateRoutes. cbn [routes crashed].
  by rewrite Hon, Hloc, Hrs.
Qed.

Lemma onBikeUpdate_not_recorded clock msg st :
  isTrackingRoutes st = false \/ location (data msg) = None ->
  routes (onBikeUpdate clock msg st) = routes st /\
  crashed (onBikeUpdate clock msg st) = crashed st.
Proof.
  intros Hoff. unfold onBikeUpdate, updateRoutes. cbn [routes crashed].
  destruct Hoff as [-> | ->]; [done |]. by destruct (isTrackingRoutes st).
Qed.

(** The condition under which the routes updater of the handler throws. *)
Lemma onBikeUpdate_crashed clock msg st :
  crashed (onBikeUpdate clock msg st) = true <->
  crashed st = true \/
  (isTrackingRoutes st = true /\ is_Some (location (data msg)) /\
   routes st !! msg_bikeId msg = None /\ msg_bikeId msg ∈ inheritedMembers).
Proof.
  destruct (isTrackingRoutes st) eqn:Hon;
    [destruct (location (data msg)) as [loc |] eqn:Hloc |].
  - destruct (recordPoint_cases (msg_bikeId msg) loc (routes st))
      as [(Hthrow & Hnone & Hin) | [Hsame | (route & _ & Hown & _ & Happ)]].
    + destruct (onBikeUpdate_threw clock msg st loc Hon Hloc Hthrow) as [_ ->].
      split; [| done]. intros _. right. by split_and!.
    + destruct (onBikeUpdate_recorded clock msg st loc _ Hon Hloc Hsame) as [_ ->].
      split; [by left |]. intros [? | (_ & _ & Hnone & Hin)]; [done |].
      unfold recordPoint, routeOf in Hsame. rewrite Hnone, decide_True in Hsame by done.
      done.
    + destruct (onBikeUpdate_recorded clock msg st loc _ Hon Hloc Happ) as [_ ->].
      split; [by left |]. intros [? | (_ & _ & Hnone & Hin)]; [done |].
      by destruct (Hown Hnone).
  - destruct (onBikeUpdate_not_recorded clock msg st (or_intror Hloc)) as [_ ->].
    split; [by left |]. intros [? | (_ & [? ?] & _)]; done.
  - destruct (onBikeUpdate_not_recorded clock msg st (or_introl Hon)) as [_ ->].
    split; [by left |]. intros [? | (? & _)]; done.
Qed.

Lemma initialRoutes_snoc bs bike :
  initialRoutes (bs ++ [bike]) =
  match currentLocation bike with
  | Some loc => <[bikeId bike := [(lat loc, lng loc)]]> (initialRoutes bs)
  | None => initialRoutes bs
  end.
Proof. unfold initialRoutes. by rewrite foldl_snoc. Qed.

Lemma initialRoutes_unknown bs bid :
  bid ∉ bikeId <$> bs -> initialRoutes bs !! bid = None.
Proof.
  induction bs as [| bike bs IH] using rev_ind; intros Hnot; [done |].
  rewrite fmap_app in Hnot. apply not_elem_of_app in Hnot as [Hbs Hbike].
  rewrite initialRoutes_snoc.
  destruct (currentLocation bike); [| by apply IH].
  rewrite lookup_insert_ne; [by apply IH |].
  intros <-. apply Hbike. simpl. apply list_elem_of_here.
Qed.

Lemma initialRoutes_known bs bike :
  NoDup (bikeId <$> bs) -> bike ∈ bs ->
  initialRoutes bs !! bikeId bike =
  (fun loc => [(lat loc, lng loc)]) <$> currentLocation bike.
Proof.
  induction bs as [| b bs IH] using rev_ind; intros Hnodup Hin.
  { by apply elem_of_nil in Hin. }
  rewrite fmap_app in Hnodup. apply NoDup_app in Hnodup as (Hnodup & Hfresh & _).
  rewrite initialRoutes_snoc.
  apply elem_of_app in Hin as [Hin | ->%list_elem_of_singleton].
  - assert (bikeId b <> bikeId bike) as Hne.
    { intros Heq. apply (Hfresh (bikeId bike)).
      - by apply list_elem_of_fmap_2.
      - rewrite <- Heq. simpl. apply list_elem_of_here. }
    destruct (currentLocation b); [rewrite lookup_insert_ne by done |]; by apply IH.
  - destruct (currentLocation b) as [loc |]; simpl.
    + by rewrite lookup_insert_eq.
    + apply initialRoutes_unknown. intros Hin. apply (Hfresh _ Hin).
      simpl. apply list_elem_of_here.
Qed.

(** Each [setRoutes] of [startRouteTracking] overwrites the entry of its
    bike id, so the last listed entry with a location wins. *)
Lemma initialRoutes_lastLocated bs bid :
  initialRoutes bs !! bid = (fun loc => [(lat loc, lng loc)]) <$> lastLocated bid bs.
Proof.
  induction bs as [| bike bs IH] using rev_ind; [done |].
  rewrite initialRoutes_snoc. unfold lastLocated in *. rewrite omap_app. simpl.
  destruct (decide (bikeId bike = bid)) as [<- | Hne].
  - destruct (currentLocation bike) as [loc |]; simpl.
    + by rewrite lookup_insert_eq, last_snoc.
    + by rewrite app_nil_r.
  - rewrite app_nil_r.
    destruct (currentLocation bike); [by rewrite lookup_insert_ne |]. done.
Qed.

End TrackingMapFacts.

(** C5, as stated, fails: a message whose latitude is 91 and whose
    longitude is 200 is not rejected; both handlers store the entity. *)
Lemma out_of_range_telemetry_is_stored :
  (91 > 90)%R /\ (200 > 180)%R /\
  (let st := GeoFencing.toggleTracking GeoFencing.init in
   GeoFencing.bikes
     (GeoFencing.onBikeUpdate 1000 "10:00:00" (report "bike-9" (mkLocation 91 200) "t1") st)
   <> GeoFencing.bikes st) /\
  TrackingMap.bikes
    (TrackingMap.onBikeUpdate "10:00:00" (map_report "bike-9" (mkLocation 91 200) "t1")
       TrackingMap.init)
  <> TrackingMap.bikes TrackingMap.init.
Proof.
  split; [lra |]. split; [lra |]. split; discriminate.
Qed.

(** C5, amended.  Telemetry application checks no coordinate range and
    rejects nothing for its coordinates.  In the geofence handler, after
    any message, whatever its coordinates, the entity's entry holds the
    message's location, speed, battery and timestamp.  In the tracking
    map the same holds whenever the routes updater of the handler does not
    throw, and whether it throws does not depend on the coordinates: it
    throws exactly when tracking is on, the message has a location, and
    its id names an inherited member of the routes object under which no
    route is stored. *)
Theorem telemetry_applied_without_range_check :
  (forall now clock msg st,
      exists bike,
        GeoFencing.find (GeoFencing.msg_bikeId msg)
          (GeoFencing.bikes (GeoFencing.onBikeUpdate now clock msg st)) = Some bike /\
        GeoFencing.currentLocation bike = GeoFencing.location (GeoFencing.data msg) /\
        GeoFencing.avgSpeed bike = GeoFencing.data_avgSpeed (GeoFencing.data msg) /\
        GeoFencing.batteryLevel bike = GeoFencing.battery (GeoFencing.data msg) /\
        GeoFencing.lastSeen bike = GeoFencing.timestamp msg) /\
  (forall clock msg st,
      TrackingMap.crashed (TrackingMap.onBikeUpdate clock msg st) = false ->
      exists bike,
        TrackingMap.find (TrackingMap.msg_bikeId msg)
          (TrackingMap.bikes (TrackingMap.onBikeUpdate clock msg st)) = Some bike /\
        TrackingMap.currentLocation bike = TrackingMap.location (TrackingMap.data msg) /\
        TrackingMap.avgSpeed bike = TrackingMap.data_avgSpeed (TrackingMap.data msg) /\
        TrackingMap.batteryLevel bike = TrackingMap.battery (TrackingMap.data msg) /\
        TrackingMap.lastSeen bike = TrackingMap.timestamp msg) /\
  (forall clock msg st,
      TrackingMap.crashed (TrackingMap.onBikeUpdate clock msg st) = true <->
      TrackingMap.crashed st = true \/
      (TrackingMap.isTrackingRoutes st = true /\
       is_Some (TrackingMap.location (TrackingMap.data msg)) /\
       TrackingMap.routes st !! TrackingMap.msg_bikeId msg = None /\
       TrackingMap.msg_bikeId msg ∈ TrackingMap.inheritedMembers)).
Proof.
  split_and!.
  - intros now clock msg st.
    exists (GeoFencing.updatedBike (GeoFencing.baseLocation st) (GeoFencing.radius st) msg).
    split; [apply find_storeBike, updatedBike_id | apply updatedBike_fields].
  - intros clock msg st _.
    destruct (find_updateBikes msg (TrackingMap.bikes st)) as (bike & Hfind & _ & Hrest).
    by exists bike.
  - intros clock msg st. apply onBikeUpdate_crashed.
Qed.

Lemma telemetry_applied_without_range_check_witness :
  let st := TrackingMap.onBikeUpdate "10:00:00" (map_report "bike-9" (mkLocation 91 200) "t1")
              (TrackingMap.startRouteTracking TrackingMap.init) in
  TrackingMap.crashed st = false /\
  exists bike,
    TrackingMap.find "bike-9" (TrackingMap.bikes st) = Some bike /\
    TrackingMap.currentLocation bike = Some (mkLocation 91 200).
Proof.
  cbv zeta.
  assert (TrackingMap.crashed
            (TrackingMap.onBikeUpdate "10:00:00" (map_report "bike-9" (mkLocation 91 200) "t1")
               (TrackingMap.startRouteTracking TrackingMap.init)) = false) as Halive
    by reflexivity.
  split; [exact Halive |].
  destruct (proj1 (proj2 telemetry_applied_without_range_check) "10:00:00"
              (map_report "bike-9" (mkLocation 91 200) "t1")
              (TrackingMap.startRouteTracking TrackingMap.init) Halive)
    as (bike & Hfind & Hloc & _).
  by exists bike.
Defined.

(** C6, as stated, fails: a position about 0.11 m from the last recorded
    point, hence within the one-metre threshold, is appended to the
    route. *)
Lemma near_point_is_appended :
  let st0 := TrackingMap.startRouteTracking
               (TrackingMap.onBikeUpdate "10:00:00" (map_report "bike-1" (mkLocation 0 0) "t0")
                  TrackingMap.init) in
  let st1 := TrackingMap.onBikeUpdate "10:00:05"
               (map_report "bike-1" (mkLocation 0.000001 0) "t1") st0 in
  TrackingMap.routes st0 !! "bike-1" = Some [(0, 0)%R] /\
  TrackingMap.routes st1 !! "bike-1" = Some [(0, 0)%R; (0.000001, 0)%R] /\
  ~ (calculateDistance 0 0 0.000001 0 > 0.001)%R.
Proof.
  cbv zeta.
  assert (TrackingMap.routes
            (TrackingMap.startRouteTracking
               (TrackingMap.onBikeUpdate "10:00:00" (map_report "bike-1" (mkLocation 0 0) "t0")
                  TrackingMap.init)) = {[ "bike-1" := [(0, 0)%R] ]}) as Hroutes by done.
  split_and!.
  - by rewrite Hroutes, lookup_singleton_eq.
  - destruct (onBikeUpdate_recorded "10:00:05"
                  (map_report "bike-1" (mkLocation 0.000001 0) "t1")
                  (TrackingMap.startRouteTracking
                     (TrackingMap.onBikeUpdate "10:00:00"
                        (map_report "bike-1" (mkLocation 0 0) "t0") TrackingMap.init))
                  (mkLocation 0.000001 0)
                  (<["bike-1" := [(0, 0)%R] ++ [(0.000001, 0)%R]]> {[ "bike-1" := [(0, 0)%R] ]})
                  eq_refl eq_refl) as [-> _].
    + rewrite Hroutes.
      apply (recordPoint_append "bike-1" (mkLocation 0.000001 0) _ [(0, 0)%R] (0, 0)%R).
      * apply lookup_singleton_eq.
      * done.
      * simpl. intros [= H]. lra.
    + by rewrite lookup_insert_eq.
  - rewrite calculateDistance_meridian by lra. pose proof PI_4. lra.
Qed.

(** C6, amended.  While route tracking is on, a reported position is
    appended to the entity's non-empty route exactly when it differs from
    the last recorded point in latitude or longitude; a position equal to
    the last recorded point leaves all routes unchanged, and the routes of
    other entities are never touched. *)
Theorem route_point_appended_unless_duplicate clock msg st loc route lastPoint :
  TrackingMap.isTrackingRoutes st = true ->
  TrackingMap.location (TrackingMap.data msg) = Some loc ->
  TrackingMap.routes st !! TrackingMap.msg_bikeId msg = Some route ->
  last route = Some lastPoint ->
  let st' := TrackingMap.onBikeUpdate clock msg st in
  (TrackingMap.routes st' !! TrackingMap.msg_bikeId msg = Some (route ++ [(lat loc, lng loc)]) <->
   lastPoint.1 <> lat loc \/ lastPoint.2 <> lng loc) /\
  (lastPoint = (lat loc, lng loc) -> TrackingMap.routes st' = TrackingMap.routes st) /\
  (forall other, other <> TrackingMap.msg_bikeId msg ->
     TrackingMap.routes st' !! other = TrackingMap.routes st !! other).
Proof.
  intros Hon Hloc Hroute Hlast. cbv zeta.
  destruct (decide (lastPoint = (lat loc, lng loc))) as [Heq | Hne].
  - subst lastPoint.
    destruct (onBikeUpdate_recorded clock msg st loc _ Hon Hloc
                (recordPoint_duplicate _ _ _ _ Hroute Hlast)) as [-> _].
    split_and!; [| done | done].
    rewrite Hroute. simpl. split.
    + intros [= Heq]. apply (f_equal length) in Heq.
      rewrite length_app in Heq. simpl in Heq. lia.
    + by intros [? | ?].
  - destruct (onBikeUpdate_recorded clock msg st loc _ Hon Hloc
                (recordPoint_append _ _ _ _ _ Hroute Hlast Hne)) as [-> _].
    split_and!.
    + rewrite lookup_insert_eq.
      split; [| done]. intros _. destruct lastPoint as [a b]. simpl.
      destruct (decide (a = lat loc)) as [-> |]; [| by left].
      right. congruence.
    + done.
    + intros other Hother. by rewrite lookup_insert_ne.
Qed.

Lemma route_point_appended_unless_duplicate_witness :
  let st0 := TrackingMap.mkState [] {[ "bike-1" := [(0, 0)%R] ]} true None None in
  let st' := TrackingMap.onBikeUpdate "10:00:05" (map_report "bike-1" (mkLocation 1 0) "t1") st0 in
  TrackingMap.routes st' !! "bike-1" = Some [(0, 0)%R; (1, 0)%R].
Proof.
  cbv zeta.
  apply (proj2 (proj1 (route_point_appended_unless_duplicate "10:00:05"
                  (map_report "bike-1" (mkLocation 1 0) "t1")
                  (TrackingMap.mkState [] {[ "bike-1" := [(0, 0)%R] ]} true None None)
                  (mkLocation 1 0) [(0, 0)%R] (0, 0)%R
                  eq_refl eq_refl (lookup_singleton_eq _ _) eq_refl))).
  left. simpl. lra.
Defined.

(** C9, as stated, fails: stopping route tracking keeps the recorded
    routes in the state. *)
Lemma stopping_keeps_routes :
  let st0 := TrackingMap.startRouteTracking
               (TrackingMap.onBikeUpdate "10:00:00" (map_report "bike-1" (mkLocation 0 0) "t0")
                  TrackingMap.init) in
  let st1 := TrackingMap.toggleRouteTracking st0 in
  TrackingMap.isTrackingRoutes st0 = true /\
  TrackingMap.isTrackingRoutes st1 = false /\
  TrackingMap.routes st1 !! "bike-1" = Some [(0, 0)%R] /\
  TrackingMap.routes st1 <> ∅.
Proof.
  cbv zeta.
  assert (TrackingMap.routes
            (TrackingMap.toggleRouteTracking
               (TrackingMap.startRouteTracking
                  (TrackingMap.onBikeUpdate "10:00:00"
                     (map_report "bike-1" (mkLocation 0 0) "t0") TrackingMap.init)))
          = {[ "bike-1" := [(0, 0)%R] ]}) as Hroutes by done.
  split_and!; [done | done | |].
  - by rewrite Hroutes, lookup_singleton_eq.
  - rewrite Hroutes. apply insert_non_empty.
Qed.

(** C9, amended.  Stopping route tracking only clears the tracking flag:
    the recorded routes stay in the state, though none is drawn any more.
    Starting it discards all recorded routes and gives every listed id a
    route made of the single point at the location of the last listed
    entry of that id that has a location, which is the entity's current
    location when the list holds one entry per entity, and no route to
    anything else; a single point is not drawn. *)
Theorem route_tracking_toggle :
  (forall st,
      TrackingMap.isTrackingRoutes (TrackingMap.stopRouteTracking st) = false /\
      TrackingMap.routes (TrackingMap.stopRouteTracking st) = TrackingMap.routes st /\
      TrackingMap.drawnRoutes (TrackingMap.stopRouteTracking st) = ∅) /\
  (forall st,
      TrackingMap.isTrackingRoutes (TrackingMap.startRouteTracking st) = true /\
      TrackingMap.routes (TrackingMap.startRouteTracking st) =
      TrackingMap.routes (TrackingMap.startRouteTracking (TrackingMap.clearRoutes st)) /\
      (forall bid,
         TrackingMap.routes (TrackingMap.startRouteTracking st) !! bid =
         (fun loc => [(lat loc, lng loc)]) <$> TrackingMap.lastLocated bid (TrackingMap.bikes st)) /\
      (forall bid, bid ∉ TrackingMap.bikeId <$> TrackingMap.bikes st ->
         TrackingMap.routes (TrackingMap.startRouteTracking st) !! bid = None) /\
      (NoDup (TrackingMap.bikeId <$> TrackingMap.bikes st) ->
       forall bike, bike ∈ TrackingMap.bikes st ->
         TrackingMap.routes (TrackingMap.startRouteTracking st) !! TrackingMap.bikeId bike =
         (fun loc => [(lat loc, lng loc)]) <$> TrackingMap.currentLocation bike) /\
      TrackingMap.drawnRoutes (TrackingMap.startRouteTracking st) = ∅).
Proof.
  split; [done |]. intros st. split_and!; [done | done | | | |].
  - intros bid. apply initialRoutes_lastLocated.
  - intros bid Hnot. by apply initialRoutes_unknown.
  - intros Hnodup bike Hin. by apply initialRoutes_known.
  - unfold TrackingMap.drawnRoutes. cbn [TrackingMap.isTrackingRoutes TrackingMap.routes
      TrackingMap.startRouteTracking].
    apply map_empty. intros bid. apply map_lookup_filter_None. right. intros route Hroute.
    rewrite initialRoutes_lastLocated in Hroute.
    destruct (TrackingMap.lastLocated bid (TrackingMap.bikes st)); [| done].
    injection Hroute as <-. simpl. lia.
Qed.

Lemma route_tracking_toggle_witness :
  let st := TrackingMap.mkState [parked_bike] {[ "bike-1" := [(0, 0)%R; (1, 1)%R] ]}
              false None None in
  let twice := TrackingMap.mkState
                 [parked_bike;
                  TrackingMap.mkBike "bike-1" (Some (mkLocation 9 9)) 0 55 "t9" TrackingMap.active]
                 ∅ false None None in
  TrackingMap.routes (TrackingMap.startRouteTracking st) !! "bike-1" = Some [(3, 4)%R] /\
  TrackingMap.routes (TrackingMap.startRouteTracking st) !! "bike-2" = None /\
  TrackingMap.routes (TrackingMap.startRouteTracking twice) !! "bike-1" = Some [(9, 9)%R].
Proof.
  cbv zeta.
  destruct (proj2 route_tracking_toggle
              (TrackingMap.mkState [parked_bike] {[ "bike-1" := [(0, 0)%R; (1, 1)%R] ]}
                 false None None)) as (_ & _ & _ & Hnone & Hsome & _).
  destruct (proj2 route_tracking_toggle
              (TrackingMap.mkState
                 [parked_bike;
                  TrackingMap.mkBike "bike-1" (Some (mkLocation 9 9)) 0 55 "t9" TrackingMap.active]
                 ∅ false None None)) as (_ & _ & Hlast & _).
  split_and!.
  - apply (Hsome (NoDup_singleton "bike-1") parked_bike). apply list_elem_of_here.
  - apply Hnone. simpl. intros Hin%list_elem_of_singleton. discriminate.
  - rewrite Hlast. reflexivity.
Defined.

(** C10.  A telemetry message for an entity leaves the stored entries of
    all other entities exactly as they were, in both handlers: the entries
    with another id are the same, in the same order, looking up another id
    gives the same entry, and no entry is removed. *)
Theorem telemetry_frame :
  (forall now clock msg st,
      let st' := GeoFencing.onBikeUpdate now clock msg st in
      filter (fun bike => GeoFencing.bikeId bike <> GeoFencing.msg_bikeId msg)
        (GeoFencing.bikes st') =
      filter (fun bike => GeoFencing.bikeId bike <> GeoFencing.msg_bikeId msg)
        (GeoFencing.bikes st) /\
      (forall other, other <> GeoFencing.msg_bikeId msg ->
         GeoFencing.find other (GeoFencing.bikes st') =
         GeoFencing.find other (GeoFencing.bikes st)) /\
      length (GeoFencing.bikes st) <= length (GeoFencing.bikes st')) /\
  (forall clock msg st,
      let st' := TrackingMap.onBikeUpdate clock msg st in
      filter (fun bike => TrackingMap.bikeId bike <> TrackingMap.msg_bikeId msg)
        (TrackingMap.bikes st') =
      filter (fun bike => TrackingMap.bikeId bike <> TrackingMap.msg_bikeId msg)
        (TrackingMap.bikes st) /\
      (forall other, other <> TrackingMap.msg_bikeId msg ->
         TrackingMap.find other (TrackingMap.bikes st') =
         TrackingMap.find other (TrackingMap.bikes st)) /\
      length (TrackingMap.bikes st) <= length (TrackingMap.bikes st')).
Proof.
  split.
  - intros now clock msg st. cbv zeta.
    unfold GeoFencing.onBikeUpdate. cbn [GeoFencing.bikes]. split_and!.
    + apply filter_storeBike_others, updatedBike_id.
    + intros other Hother. apply find_storeBike_other; [apply updatedBike_id | done].
    + apply length_storeBike.
  - intros clock msg st. cbv zeta.
    unfold TrackingMap.onBikeUpdate. cbn [TrackingMap.bikes]. split_and!.
    + apply filter_updateBikes_others.
    + intros other Hother. by apply find_updateBikes_other.
    + apply length_updateBikes.
Qed.

Lemma telemetry_frame_witness :
  let st := TrackingMap.mkState [parked_bike] ∅ false None None in
  TrackingMap.find "bike-1"
    (TrackingMap.bikes
       (TrackingMap.onBikeUpdate "10:00:00" (map_report "bike-2" (mkLocation 5 6) "t1") st))
  = Some parked_bike.
Proof.
  cbv zeta.
  rewrite (proj1 (proj2 (proj2 telemetry_frame "10:00:00"
                           (map_report "bike-2" (mkLocation 5 6) "t1")
                           (TrackingMap.mkState [parked_bike] ∅ false None None)))
             "bike-1"); [reflexivity | discriminate].
Defined.

(** * Further properties of the code *)

(** ** Distances *)

Section DistanceFacts.
Local Open Scope R_scope.

Lemma calculateDistance_equator lo1 lo2 :
  0 <= lo2 - lo1 <= 180 ->
  calculateDistance 0 lo1 0 lo2 = 6371 * ((lo2 - lo1) * PI / 180).
Proof.
  intros Hd. unfold calculateDistance. cbv zeta.
  rewrite atan2_sqrt_asin by apply haversine_a_range.
  unfold haversine_a. cbv zeta.
  replace ((0 - 0) * PI / 180 / 2) with 0 by lra.
  replace (0 * PI / 180) with 0 by lra.
  rewrite sin_0, cos_0.
  set (x := (lo2 - lo1) * PI / 180 / 2).
  replace (0 * 0 + 1 * 1 * sin x * sin x) with (Rsqr (sin x)) by (unfold Rsqr; ring).
  pose proof PI_RGT_0 as Hpi.
  assert (0 <= x <= PI / 2) as Hx by (unfold x; split; nra).
  rewrite sqrt_Rsqr by (apply sin_ge_0; lra).
  rewrite asin_sin by lra.
  unfold x. lra.
Qed.

End DistanceFacts.

(** X1.  The distance between two positions does not depend on their
    order, and a position is at distance zero from itself. *)
Theorem distance_symmetric_and_zero_on_self (lat1 lng1 lat2 lng2 : R) :
  calculateDistance lat1 lng1 lat2 lng2 = calculateDistance lat2 lng2 lat1 lng1 /\
  calculateDistance lat1 lng1 lat1 lng1 = 0%R.
Proof. split; [apply calculateDistance_sym | apply calculateDistance_same]. Qed.

(** X3.  Along a meridian, and along the equator, the computed distance is
    the arc length of the angle between the two positions: 6371 km times
    the angle in radians, for angles up to 180 degrees in either
    direction. *)
Theorem distance_is_arc_length (a b lo : R) :
  (Rabs (b - a) <= 180)%R ->
  calculateDistance a lo b lo = (6371 * (Rabs (b - a) * PI / 180))%R /\
  calculateDistance 0 a 0 b = (6371 * (Rabs (b - a) * PI / 180))%R.
Proof.
  intros Habs.
  destruct (Rle_lt_dec a b) as [Hle | Hlt].
  - rewrite Rabs_right in * by lra.
    split; [apply calculateDistance_meridian | apply calculateDistance_equator]; lra.
  - rewrite Rabs_left in * by lra.
    rewrite (calculateDistance_sym a lo b lo), (calculateDistance_sym 0 a 0 b).
    rewrite calculateDistance_meridian, calculateDistance_equator by lra.
    split; lra.
Qed.

Lemma distance_is_arc_length_witness :
  calculateDistance 10 72 9 72 = (6371 * (Rabs (9 - 10) * PI / 180))%R.
Proof.
  apply (proj1 (distance_is_arc_length 10 9 72
                  ltac:(rewrite Rabs_left by lra; lra))).
Defined.

(** ** The metrics component over whole runs *)

Section MetricsRunFacts.
Import Metrics.
Local Open Scope R_scope.

Implicit Types (h : list LocationHistory) (n : LocationHistory).
Implicit Types (st : State) (msg : BikeData) (msgs : list BikeData).

Lemma pushHistory_window h n :
  (length h <= 100)%nat ->
  pushHistory h n = drop (length (h ++ [n]) - 100) (h ++ [n]).
Proof.
  intros Hlen. rewrite length_app. simpl.
  destruct (decide (length h < 100)%nat).
  - rewrite pushHistory_room by done.
    replace (length h + 1 - 100)%nat with 0%nat by lia. done.
  - rewrite pushHistory_full by lia.
    replace (length h + 1 - 100)%nat with 1%nat by lia.
    rewrite drop_app_le; [done | lia].
Qed.

Lemma onBikeData_entry msg st n :
  entryOf msg = Some n ->
  locationHistory (onBikeData msg st) = pushHistory (locationHistory st) n /\
  totalCalculatedDistance (onBikeData msg st) =
  totalCalculatedDistance st + distanceAdded (locationHistory st) n.
Proof.
  unfold entryOf. destruct (accepted msg) as [loc |] eqn:Hacc; [| done].
  intros [= <-]. split; [by apply onBikeData_history | by apply onBikeData_total].
Qed.

Lemma onBikeData_no_entry msg st : entryOf msg = None -> onBikeData msg st = st.
Proof.
  unfold entryOf. destruct (accepted msg) eqn:Hacc; [done |].
  intros _. by apply onBikeData_rejected.
Qed.

Lemma history_bounded_message msg st :
  (length (locationHistory st) <= 100)%nat ->
  (length (locationHistory (onBikeData msg st)) <= 100)%nat.
Proof. intros Hlen. apply (history_bounded_step st (OpBikeData msg) Hlen). Qed.

Lemma entries_cons msg msgs :
  entries (msg :: msgs) =
  match entryOf msg with
  | Some n => n :: entries msgs
  | None => entries msgs
  end.
Proof. done. Qed.

Lemma drop_window (L E : list LocationHistory) :
  (length L <= 101)%nat ->
  drop (length (drop (length L - 100) L ++ E) - 100) (drop (length L - 100) L ++ E) =
  drop (length (L ++ E) - 100) (L ++ E).
Proof.
  intros HL.
  rewrite <- (drop_app_le L E (length L - 100)) by lia.
  rewrite drop_drop. f_equal.
  rewrite length_drop, !length_app. lia.
Qed.

(** X4.  The location history is a sliding window: after any sequence of
    messages it holds exactly the last 100 entries of the previous history
    followed by the accepted messages, oldest first. *)
Theorem history_is_last_hundred msgs st :
  (length (locationHistory st) <= 100)%nat ->
  let pushed := locationHistory st ++ entries msgs in
  locationHistory (feed msgs st) = drop (length pushed - 100) pushed.
Proof.
  cbv zeta.
  revert st. induction msgs as [| msg msgs IH]; intros st Hlen.
  - simpl. rewrite app_nil_r.
    replace (length (locationHistory st) - 100)%nat with 0%nat by lia. done.
  - rewrite feed_cons, IH by (by apply history_bounded_message).
    rewrite entries_cons.
    destruct (entryOf msg) as [n |] eqn:Hentry.
    + destruct (onBikeData_entry _ st _ Hentry) as [-> _].
      rewrite pushHistory_window by done.
      rewrite drop_window by (rewrite length_app; simpl; lia).
      by rewrite <- app_assoc.
    + by rewrite onBikeData_no_entry.
Qed.

(** X6.  The cumulative distance is the length of the path through the
    accepted positions, each leg counted only when longer than 0.001 km,
    starting from the last recorded position; the 100-entry cap of the
    history never changes it. *)
Theorem total_distance_is_path_length msgs st :
  totalCalculatedDistance (feed msgs st) =
  totalCalculatedDistance st + pathLength (last (locationHistory st)) (entries msgs).
Proof.
  revert st. induction msgs as [| msg msgs IH]; intros st.
  - simpl. lra.
  - rewrite feed_cons, IH, entries_cons.
    destruct (entryOf msg) as [n |] eqn:Hentry.
    + destruct (onBikeData_entry _ st _ Hentry) as [-> ->].
      rewrite last_pushHistory. simpl. unfold distanceAdded.
      destruct (last (locationHistory st)); simpl; lra.
    + by rewrite onBikeData_no_entry.
Qed.

Lemma total_nonneg_step st (op : Op) :
  0 <= totalCalculatedDistance st -> 0 <= totalCalculatedDistance (step st op).
Proof.
  intros Hpos. destruct op as [msg | | la lo]; simpl.
  - pose proof (onBikeData_monotone msg st). lra.
  - lra.
  - done.
Qed.

End MetricsRunFacts.

Lemma history_is_last_hundred_witness :
  Metrics.locationHistory
    (Metrics.feed (replicate 101 (sample_message 0 0 "t0") ++ [sample_message 1 1 "t1"])
       Metrics.init) =
  replicate 99 (Metrics.mkLocationHistory 0 0 "t0") ++ [Metrics.mkLocationHistory 1 1 "t1"].
Proof.
  rewrite (history_is_last_hundred
             (replicate 101 (sample_message 0 0 "t0") ++ [sample_message 1 1 "t1"])
             Metrics.init); [reflexivity | simpl; lia].
Defined.

(** X5.  The cumulative distance is never negative, whatever sequence of
    messages, resets and base-location changes the component sees. *)
Theorem total_distance_never_negative (ops : list Metrics.Op) :
  (0 <= Metrics.totalCalculatedDistance (Metrics.run ops Metrics.init))%R.
Proof.
  assert (forall st, (0 <= Metrics.totalCalculatedDistance st)%R ->
                     (0 <= Metrics.totalCalculatedDistance (Metrics.run ops st))%R) as Hrun.
  { induction ops as [| op ops IH]; intros st Hpos; [done |].
    apply IH. by apply total_nonneg_step. }
  apply Hrun. simpl. lra.
Qed.

(** X7.  After a reset the first accepted message adds no distance and
    becomes the only history entry; whatever was recorded before the reset
    no longer counts. *)
Theorem reset_starts_afresh (msg : Metrics.BikeData) (st : Metrics.State) (loc : Location) :
  Metrics.accepted msg = Some loc ->
  let st' := Metrics.onBikeData msg (Metrics.resetDistance st) in
  Metrics.totalCalculatedDistance st' = 0%R /\
  Metrics.locationHistory st' =
  [Metrics.mkLocationHistory (lat loc) (lng loc) (Metrics.timestamp msg)].
Proof.
  intros Hacc. cbv zeta.
  rewrite (onBikeData_total _ _ _ Hacc), (onBikeData_history _ _ _ Hacc).
  split.
  - unfold Metrics.distanceAdded. cbn. lra.
  - by rewrite pushHistory_room by (cbn; lia).
Qed.

Lemma reset_starts_afresh_witness :
  let st := Metrics.feed [sample_message 0 0 "t0"; sample_message 1 0 "t1"] Metrics.init in
  Metrics.totalCalculatedDistance
    (Metrics.onBikeData (sample_message 5 5 "t2") (Metrics.resetDistance st)) = 0%R.
Proof.
  cbv zeta.
  apply (proj1 (reset_starts_afresh (sample_message 5 5 "t2") _ (mkLocation 5 5) eq_refl)).
Defined.

(** ** Arrays keyed by an id *)

Section KeyedList.
Context {A K : Type} `{EqDecision K} (key : A -> K).

Implicit Types (l : list A) (x u : A) (k : K).

Lemma keys_insert_found l i x u k :
  list_find (fun a => key a = k) l = Some (i, x) -> key u = k ->
  key <$> <[i := u]> l = key <$> l.
Proof.
  intros (Hl & Hx & _)%list_find_Some Hu.
  rewrite list_fmap_insert. apply list_insert_id.
  rewrite list_lookup_fmap, Hl. simpl. congruence.
Qed.

Lemma list_find_key_None l k :
  list_find (fun a => key a = k) l = None <-> k ∉ key <$> l.
Proof.
  rewrite list_find_None, Forall_forall. split.
  - intros Hall (a & -> & Hin)%list_elem_of_fmap. by apply (Hall a).
  - intros Hnot a Hin Hk. apply Hnot. rewrite <- Hk. by apply list_elem_of_fmap_2.
Qed.

Lemma list_find_key_Some l k :
  is_Some (list_find (fun a => key a = k) l) <-> k ∈ key <$> l.
Proof.
  destruct (list_find _ l) as [[i x] |] eqn:Hfind.
  - split; [| eauto]. intros _.
    apply list_find_Some in Hfind as (Hl & Hx & _).
    rewrite <- Hx. apply list_elem_of_fmap_2. by eapply list_elem_of_lookup_2.
  - split; [by intros [? ?] |]. intros Hin.
    by apply list_find_key_None in Hfind.
Qed.

Lemma NoDup_keys_snoc l u :
  NoDup (key <$> l) -> key u ∉ key <$> l -> NoDup (key <$> (l ++ [u])).
Proof.
  intros Hnodup Hfresh. rewrite fmap_app. apply NoDup_app. split_and!.
  - done.
  - intros k Hin ->%list_elem_of_singleton. done.
  - apply NoDup_singleton.
Qed.

End KeyedList.

(** ** The geofence component over whole runs *)

Section GeoFencingRunFacts.
Import GeoFencing.
Local Open Scope R_scope.

Implicit Types (st : State) (msg : BikeUpdateData) (prevBikes : list Bike).
Implicit Types (base : Location) (rad : R) (bid : string).

Lemma storeBike_ids_known msg prevBikes u :
  bikeId u = msg_bikeId msg -> msg_bikeId msg ∈ bikeId <$> prevBikes ->
  bikeId <$> storeBike msg prevBikes u = bikeId <$> prevBikes.
Proof.
  intros Hid Hin. apply (list_find_key_Some bikeId) in Hin as [[i x] Hfind].
  unfold storeBike, findIndex. rewrite Hfind. simpl.
  by apply (keys_insert_found bikeId _ _ x _ (msg_bikeId msg)).
Qed.

Lemma storeBike_ids_unknown msg prevBikes u :
  bikeId u = msg_bikeId msg -> msg_bikeId msg ∉ bikeId <$> prevBikes ->
  bikeId <$> storeBike msg prevBikes u = (bikeId <$> prevBikes) ++ [msg_bikeId msg].
Proof.
  intros Hid Hnot. apply (list_find_key_None bikeId) in Hnot.
  unfold storeBike, findIndex. rewrite Hnot. simpl.
  rewrite fmap_app. simpl. by rewrite Hid.
Qed.

Lemma storeBike_consistent base rad msg prevBikes u :
  Forall (consistent base rad) prevBikes -> consistent base rad u ->
  Forall (consistent base rad) (storeBike msg prevBikes u).
Proof.
  intros Hall Hu. unfold storeBike. destruct (findIndex _ _).
  - by apply Forall_insert.
  - apply Forall_app. split; [done | by apply Forall_singleton].
Qed.

Lemma processBike_idempotent base rad (bike : Bike) :
  processBike base rad (processBike base rad bike) = processBike base rad bike.
Proof.
  unfold processBike.
  destruct (currentLocation bike) as [loc |] eqn:Hloc; simpl; by rewrite ?Hloc.
Qed.

Lemma radius_positive_step st (op : Op) : 0 < radius st -> 0 < radius (step st op).
Proof.
  intros Hpos.
  destruct op as [now clock msg | response | latlng response | value response | response |];
    simpl; try done.
  - by destruct (trackingEnabled st).
  - by destruct response.
  - unfold changeCenter. by destruct (connectEffect_fence response (handleMapClick latlng st))
      as (_ & -> & _).
  - destruct (Rgt_dec value 0) as [Hv | Hv].
    + by destruct (changeRadius_fence value response st Hv) as (_ & -> & _).
    + unfold changeRadius, handleRadiusChange. cbv zeta.
      destruct (Rgt_dec value 0); [done |]. by rewrite decide_True.
  - unfold switchTracking. by destruct (connectEffect_fence response (toggleTracking st))
      as (_ & -> & _).
Qed.

Lemma emitted_lookup_succ base rad now clock msg
    (rest : list (Z * string * BikeUpdateData)) prevBikes i :
  emitted base rad ((now, clock, msg) :: rest) prevBikes !! S i =
  emitted base rad rest (storeBike msg prevBikes (updatedBike base rad msg)) !! i.
Proof. done. Qed.

Lemma classification_storeBike base rad msg prevBikes :
  classification (msg_bikeId msg) (storeBike msg prevBikes (updatedBike base rad msg)) =
  Some (isOutsideFence (updatedBike base rad msg)).
Proof.
  unfold classification. by rewrite find_storeBike by apply updatedBike_id.
Qed.

End GeoFencingRunFacts.

Lemma newAlert_shape now clock (msg : GeoFencing.BikeUpdateData) prevBikes u alert :
  GeoFencing.newAlert now clock msg prevBikes u = Some alert ->
  alert = {| GeoFencing.id := now;
             GeoFencing.alert_bikeId := GeoFencing.msg_bikeId msg;
             GeoFencing.type := GeoFencing.fence_breach;
             GeoFencing.message :=
               String.append "Bike "
                 (String.append (GeoFencing.msg_bikeId msg) " has left the geo-fence area");
             GeoFencing.distance := toFixed2 (GeoFencing.distanceFromBase u);
             GeoFencing.alert_timestamp := clock |}.
Proof.
  unfold GeoFencing.newAlert.
  destruct (GeoFencing.location _); [| done].
  destruct (GeoFencing.isOutsideFence u); [| done].
  destruct (GeoFencing.find _ _) as [existing |]; [| congruence].
  destruct (negb _); congruence.
Qed.

(** X8.  A telemetry message leaves the list of entity ids as it is when
    the entity is known and appends the id otherwise; in particular a list
    without duplicate ids stays without duplicates. *)
Theorem geofence_ids_after_telemetry now clock msg (st : GeoFencing.State) :
  let ids := GeoFencing.bikeId <$> GeoFencing.bikes st in
  let ids' := GeoFencing.bikeId <$> GeoFencing.bikes (GeoFencing.onBikeUpdate now clock msg st) in
  (GeoFencing.msg_bikeId msg ∈ ids -> ids' = ids) /\
  (GeoFencing.msg_bikeId msg ∉ ids -> ids' = ids ++ [GeoFencing.msg_bikeId msg]) /\
  (NoDup ids -> NoDup ids').
Proof.
  cbv zeta. unfold GeoFencing.onBikeUpdate. cbn [GeoFencing.bikes].
  set (u := GeoFencing.updatedBike _ _ msg).
  assert (GeoFencing.bikeId u = GeoFencing.msg_bikeId msg) as Hid by apply updatedBike_id.
  split_and!.
  - intros Hin. by apply storeBike_ids_known.
  - intros Hnot. by apply storeBike_ids_unknown.
  - intros Hnodup.
    destruct (decide (GeoFencing.msg_bikeId msg ∈ GeoFencing.bikeId <$> GeoFencing.bikes st))
      as [Hin | Hnot].
    + by rewrite storeBike_ids_known.
    + rewrite storeBike_ids_unknown by done.
      apply NoDup_app. split_and!; [done | | apply NoDup_singleton].
      intros k Hk ->%list_elem_of_singleton. done.
Qed.

Lemma geofence_ids_after_telemetry_witness :
  GeoFencing.bikeId <$>
    GeoFencing.bikes
      (GeoFencing.onBikeUpdate 1000 "10:00:00" (report "bike-1" mumbai "t2")
         (GeoFencing.mkState mumbai 1 [fetched_bike] [] true None)) = ["bike-1"].
Proof.
  apply (proj1 (geofence_ids_after_telemetry 1000 "10:00:00" (report "bike-1" mumbai "t2")
                  (GeoFencing.mkState mumbai 1 [fetched_bike] [] true None))).
  apply list_elem_of_here.
Defined.

(** X9.  The two lists behind the statistics panel split the entity list:
    together they hold every entity exactly once, so the inside and
    outside counts add up to the total. *)
Theorem fence_panel_partition (bs : list GeoFencing.Bike) :
  length (GeoFencing.bikesInFence bs) + length (GeoFencing.bikesOutsideFence bs) = length bs /\
  GeoFencing.bikesInFence bs ++ GeoFencing.bikesOutsideFence bs ≡ₚ bs.
Proof.
  assert (GeoFencing.bikesInFence bs ++ GeoFencing.bikesOutsideFence bs ≡ₚ bs) as Hperm.
  { unfold GeoFencing.bikesInFence, GeoFencing.bikesOutsideFence.
    induction bs as [| b bs IH]; [done |].
    destruct (GeoFencing.isOutsideFence b) eqn:Hb.
    - rewrite filter_cons_False by (rewrite Hb; simpl; tauto).
      rewrite filter_cons_True by (rewrite Hb; done).
      rewrite <- Permutation_middle. by constructor.
    - rewrite filter_cons_True by (rewrite Hb; done).
      rewrite (filter_cons_False (fun bike => GeoFencing.isOutsideFence bike))
        by (rewrite Hb; simpl; tauto).
      simpl. by constructor. }
  split; [| done].
  rewrite <- length_app. by rewrite Hperm.
Qed.

(** X10.  The fence radius is positive in every state the component can
    reach: the radius field only takes values greater than zero. *)
Theorem radius_always_positive (ops : list GeoFencing.Op) :
  (0 < GeoFencing.radius (GeoFencing.run ops GeoFencing.init))%R.
Proof.
  assert (forall st, (0 < GeoFencing.radius st)%R ->
                     (0 < GeoFencing.radius (GeoFencing.run ops st))%R) as Hrun.
  { induction ops as [| op ops IH]; intros st Hpos; [done |].
    apply IH. by apply radius_positive_step. }
  apply Hrun. simpl. lra.
Qed.

(** X11.  An alert names the entity of the message that raised it and
    carries the time stamps of that moment.  Its distance text is the
    two-decimal rendering of the distance computed for the report, a
    distance that exceeds the radius; the rendered hundredths are within
    0.005 of it, so the text itself may read as the radius. *)
Theorem alert_reports_breach now clock msg prevBikes base rad alert :
  GeoFencing.newAlert now clock msg prevBikes (GeoFencing.updatedBike base rad msg) = Some alert ->
  GeoFencing.alert_bikeId alert = GeoFencing.msg_bikeId msg /\
  GeoFencing.id alert = now /\
  GeoFencing.alert_timestamp alert = clock /\
  exists loc,
    GeoFencing.location (GeoFencing.data msg) = Some loc /\
    let d := calculateDistance (lat base) (lng base) (lat loc) (lng loc) in
    (d > rad)%R /\
    GeoFencing.distance alert = toFixed2 d /\
    (Rabs (IZR (toFixedHundredths d) / 100 - d) <= 0.005)%R.
Proof.
  intros Halert.
  assert (is_Some (GeoFencing.newAlert now clock msg prevBikes
                     (GeoFencing.updatedBike base rad msg))) as Hsome by eauto.
  apply newAlert_is_Some in Hsome as [Hout _].
  apply updatedBike_outside in Hout as (loc & Hloc & Hd).
  pose proof (updatedBike_distance base rad msg loc Hloc) as Hdist.
  rewrite (newAlert_shape _ _ _ _ _ _ Halert).
  simpl. rewrite Hdist. split_and!; try done. exists loc.
  split; [done |]. split; [done |]. split; [done |].
  unfold toFixedHundredths.
  destruct (base_Int_part
              (calculateDistance (lat base) (lng base) (lat loc) (lng loc) * 100 + / 2))
    as [Hlow Hhigh].
  apply Rabs_le. lra.
Qed.

Lemma alert_reports_breach_witness :
  exists alert,
    GeoFencing.newAlert 1000 "10:00:00" (report "bike-1" north_of_mumbai "t1") []
      (GeoFencing.updatedBike mumbai 1 (report "bike-1" north_of_mumbai "t1")) = Some alert /\
    GeoFencing.alert_bikeId alert = "bike-1" /\
    GeoFencing.distance alert =
    toFixed2 (calculateDistance (lat mumbai) (lng mumbai)
                (lat north_of_mumbai) (lng north_of_mumbai)).
Proof.
  destruct (proj2 (newAlert_is_Some 1000%Z "10:00:00" (report "bike-1" north_of_mumbai "t1")
                     [] mumbai 1%R)) as [alert Halert].
  { split; [| discriminate].
    apply updatedBike_outside. exists north_of_mumbai.
    split; [reflexivity | pose proof example_distance; simpl in *; lra]. }
  exists alert. split; [exact Halert |].
  destruct (alert_reports_breach _ _ _ _ _ _ _ Halert)
    as (Hid & _ & _ & loc & Hloc & _ & Htext & _).
  split; [exact Hid |]. injection Hloc as <-. exact Htext.
Defined.

(** X12.  While one entity reports under a fixed fence, the messages that
    raise an alert are exactly the rising edges: a report outside the
    fence whose predecessor was not outside (for the first report: the
    entity was not stored as outside).  Coming back inside re-arms the
    alert. *)
Theorem alerts_at_rising_edges base rad bid
    (msgs : list (Z * string * GeoFencing.BikeUpdateData)) prevBikes :
  Forall (fun m => GeoFencing.msg_bikeId m.2 = bid) msgs ->
  forall i m,
    msgs !! i = Some m ->
    (is_Some (default None (GeoFencing.emitted base rad msgs prevBikes !! i)) <->
     GeoFencing.isOutsideFence (GeoFencing.updatedBike base rad m.2) = true /\
     match i with
     | O => GeoFencing.classification bid prevBikes <> Some true
     | S j => exists m', msgs !! j = Some m' /\
                         GeoFencing.isOutsideFence (GeoFencing.updatedBike base rad m'.2) = false
     end).
Proof.
  revert prevBikes. induction msgs as [| [[now clock] msg] msgs IH]; intros prevBikes Hall i m Hm.
  { by rewrite lookup_nil in Hm. }
  apply Forall_cons in Hall as [Hid Hall]. simpl in Hid.
  destruct i as [| i].
  - simpl in Hm. injection Hm as <-. simpl.
    rewrite newAlert_is_Some. by rewrite Hid.
  - simpl in Hm. rewrite emitted_lookup_succ.
    rewrite (IH _ Hall i m Hm).
    destruct i as [| i]; [| done].
    rewrite <- Hid, classification_storeBike. simpl. split.
    + intros [Hout Hprev]. split; [done |]. eexists. split; [done |].
      simpl. apply not_true_is_false. intros Heq. apply Hprev. by rewrite Heq.
    + intros [Hout (m' & [= <-] & Hprev)]. split; [done |]. simpl in Hprev.
      rewrite Hprev. discriminate.
Qed.

Lemma alerts_at_rising_edges_witness :
  is_Some
    (default None
       (GeoFencing.emitted mumbai 1
          [(1000%Z, "10:00:00", report "bike-1" north_of_mumbai "t1");
           (2000%Z, "10:00:05", report "bike-1" mumbai "t2");
           (3000%Z, "10:00:10", report "bike-1" north_of_mumbai "t3")] [] !! 2%nat)).
Proof.
  apply (proj2 (alerts_at_rising_edges mumbai 1%R "bike-1"
                  [(1000%Z, "10:00:00", report "bike-1" north_of_mumbai "t1");
                   (2000%Z, "10:00:05", report "bike-1" mumbai "t2");
                   (3000%Z, "10:00:10", report "bike-1" north_of_mumbai "t3")] []
                  ltac:(repeat constructor) 2%nat
                  (3000%Z, "10:00:10", report "bike-1" north_of_mumbai "t3") eq_refl)).
  split.
  - apply updatedBike_outside. exists north_of_mumbai.
    split; [reflexivity | pose proof example_distance; simpl in *; lra].
  - eexists. split; [reflexivity |].
    apply not_true_is_false. intros (loc & [= <-] & Hd)%updatedBike_outside.
    simpl in Hd. rewrite calculateDistance_same in Hd. lra.
Defined.

(** X13.  Telemetry keeps the stored classifications consistent with the
    fence: if every stored entity agrees with the current centre and
    radius before a message, every stored entity agrees with them after
    it. *)
Theorem telemetry_keeps_consistency now clock msg (st : GeoFencing.State) :
  Forall (GeoFencing.consistent (GeoFencing.baseLocation st) (GeoFencing.radius st))
    (GeoFencing.bikes st) ->
  let st' := GeoFencing.onBikeUpdate now clock msg st in
  Forall (GeoFencing.consistent (GeoFencing.baseLocation st') (GeoFencing.radius st'))
    (GeoFencing.bikes st').
Proof.
  intros Hall. cbv zeta. unfold GeoFencing.onBikeUpdate.
  cbn [GeoFencing.bikes GeoFencing.baseLocation GeoFencing.radius].
  apply storeBike_consistent; [done | apply updatedBike_consistent].
Qed.

Lemma telemetry_keeps_consistency_witness :
  let st := GeoFencing.mkState mumbai 1
              [GeoFencing.mkBike "bike-1" (Some north_of_mumbai) 12 80 "t0" "active" true 2;
               GeoFencing.mkBike "bike-2" (Some mumbai) 12 80 "t0" "active" false 0]
              [] true None in
  let st' := GeoFencing.onBikeUpdate 1000 "10:00:00" (report "bike-2" north_of_mumbai "t1") st in
  GeoFencing.bikeId <$> GeoFencing.bikes st' = ["bike-1"; "bike-2"] /\
  Forall (GeoFencing.consistent mumbai 1) (GeoFencing.bikes st').
Proof.
  cbv zeta. split; [reflexivity |].
  apply (telemetry_keeps_consistency 1000%Z "10:00:00" (report "bike-2" north_of_mumbai "t1")
           (GeoFencing.mkState mumbai 1
              [GeoFencing.mkBike "bike-1" (Some north_of_mumbai) 12 80 "t0" "active" true 2;
               GeoFencing.mkBike "bike-2" (Some mumbai) 12 80 "t0" "active" false 0]
              [] true None)).
  cbn [GeoFencing.baseLocation GeoFencing.radius GeoFencing.bikes].
  apply Forall_cons. split; [| apply Forall_singleton].
  - intros loc [= <-]. cbn [GeoFencing.isOutsideFence].
    pose proof example_distance. split; [intros _; lra | done].
  - intros loc [= <-]. cbn [GeoFencing.isOutsideFence].
    rewrite calculateDistance_same. split; [discriminate | lra].
Defined.

(** X14.  Refreshing keeps the ids and positions the server sent, and is
    idempotent: fetching the list the component already shows, under the
    same fence, changes nothing. *)
Theorem refresh_idempotent (serverBikes : list GeoFencing.Bike) (st : GeoFencing.State) :
  let st1 := GeoFencing.fetchBikes (Some serverBikes) st in
  GeoFencing.fetchBikes (Some (GeoFencing.bikes st1)) st1 = st1 /\
  GeoFencing.bikeId <$> GeoFencing.bikes st1 = GeoFencing.bikeId <$> serverBikes /\
  GeoFencing.currentLocation <$> GeoFencing.bikes st1 =
  GeoFencing.currentLocation <$> serverBikes.
Proof.
  cbv zeta. unfold GeoFencing.fetchBikes. cbn. split_and!.
  - f_equal. rewrite map_map. apply map_ext. intros b. apply processBike_idempotent.
  - rewrite <- list_fmap_compose. apply list_fmap_ext. intros i b _. simpl.
    unfold GeoFencing.processBike. by destruct (GeoFencing.currentLocation b).
  - rewrite <- list_fmap_compose. apply list_fmap_ext. intros i b _. simpl.
    unfold GeoFencing.processBike. by destruct (GeoFencing.currentLocation b) eqn:Hb.
Qed.

(** X15.  Clearing the alert buffer does not re-arm anything: the next
    report of an entity that is stored as outside raises no alert, and the
    buffer stays empty. *)
Theorem clearing_alerts_does_not_rearm now clock msg (st : GeoFencing.State) :
  GeoFencing.classification (GeoFencing.msg_bikeId msg) (GeoFencing.bikes st) = Some true ->
  GeoFencing.alerts (GeoFencing.onBikeUpdate now clock msg (GeoFencing.clearAlerts st)) = [].
Proof.
  intros Hcls. unfold GeoFencing.onBikeUpdate. cbn.
  destruct (GeoFencing.newAlert _ _ _ _ _) as [alert |] eqn:Halert; [| done].
  assert (is_Some (GeoFencing.newAlert now clock msg (GeoFencing.bikes st)
                     (GeoFencing.updatedBike (GeoFencing.baseLocation st)
                        (GeoFencing.radius st) msg))) as Hsome by eauto.
  apply newAlert_is_Some in Hsome as [_ Hprev]. done.
Qed.

Lemma clearing_alerts_does_not_rearm_witness :
  GeoFencing.alerts
    (GeoFencing.onBikeUpdate 1000 "10:00:00" (report "bike-1" north_of_mumbai "t1")
       (GeoFencing.clearAlerts
          (GeoFencing.mkState mumbai 1
             [GeoFencing.mkBike "bike-1" (Some north_of_mumbai) 12 80 "t0" "active" true 2]
             [sample_alert 1] true None))) = [].
Proof.
  apply (clearing_alerts_does_not_rearm 1000%Z "10:00:00"
           (report "bike-1" north_of_mumbai "t1")).
  reflexivity.
Defined.

(** X16.  Switching tracking on forgets what was known: when the fetch
    that follows fails, the entity list and the alert buffer are empty, so
    the first report outside the fence of any entity raises an alert, the
    only one in the buffer. *)
Theorem restart_forgets_entities (st : GeoFencing.State) :
  GeoFencing.trackingEnabled st = false ->
  let st' := GeoFencing.switchTracking None st in
  GeoFencing.trackingEnabled st' = true /\
  GeoFencing.bikes st' = [] /\
  GeoFencing.alerts st' = [] /\
  forall now clock msg,
    GeoFencing.isOutsideFence
      (GeoFencing.updatedBike (GeoFencing.baseLocation st') (GeoFencing.radius st') msg) = true ->
    exists alert,
      GeoFencing.alerts (GeoFencing.onBikeUpdate now clock msg st') = [alert] /\
      GeoFencing.alert_bikeId alert = GeoFencing.msg_bikeId msg.
Proof.
  intros Hoff. cbv zeta.
  unfold GeoFencing.switchTracking. rewrite connectEffect_failed.
  set (st' := GeoFencing.toggleTracking st).
  assert (GeoFencing.trackingEnabled st' = true /\ GeoFencing.bikes st' = [] /\
          GeoFencing.alerts st' = []) as (Hon & Hbikes & Halerts).
  { unfold st', GeoFencing.toggleTracking. cbn. by rewrite Hoff. }
  clearbody st'.
  split_and!; try done.
  intros now clock msg Hout.
  destruct (proj2 (newAlert_is_Some now clock msg [] (GeoFencing.baseLocation st')
                     (GeoFencing.radius st'))) as [alert Halert].
  { split; [done | discriminate]. }
  exists alert. unfold GeoFencing.onBikeUpdate. cbn [GeoFencing.alerts].
  rewrite Hbikes, Halert, Halerts. split; [done |].
  by rewrite (newAlert_shape _ _ _ _ _ _ Halert).
Qed.

Lemma restart_forgets_entities_witness :
  let st := GeoFencing.mkState mumbai 1
              [GeoFencing.mkBike "bike-1" (Some north_of_mumbai) 12 80 "t0" "active" true 2]
              [sample_alert 1] false None in
  let st' := GeoFencing.switchTracking None st in
  GeoFencing.bikes st' = [] /\
  GeoFencing.alerts st' = [] /\
  exists alert,
    GeoFencing.alerts
      (GeoFencing.onBikeUpdate 1000 "10:00:00" (report "bike-1" north_of_mumbai "t1") st') =
    [alert] /\
    GeoFencing.alert_bikeId alert = "bike-1".
Proof.
  cbv zeta.
  destruct (restart_forgets_entities
              (GeoFencing.mkState mumbai 1
                 [GeoFencing.mkBike "bike-1" (Some north_of_mumbai) 12 80 "t0" "active" true 2]
                 [sample_alert 1] false None) eq_refl) as (_ & Hbikes & Halerts & Hfirst).
  split_and!; [exact Hbikes | exact Halerts |].
  apply (Hfirst 1000%Z "10:00:00" (report "bike-1" north_of_mumbai "t1")).
  apply updatedBike_outside. exists north_of_mumbai. split; [reflexivity |].
  pose proof example_distance. simpl in *. lra.
Defined.

(** ** The tracking map over whole runs *)

Section TrackingMapRunFacts.
Import TrackingMap.
Local Open Scope R_scope.

Implicit Types (st : State) (msg : BikeUpdateData) (prevBikes bs : list Bike).
Implicit Types (prevRoutes : Routes) (bid : string) (loc : Location).
Implicit Types (route : list (R * R)).

Lemma noRepeat_singleton (p : R * R) : noRepeat [p].
Proof. intros i a b Ha Hb. destruct i; simpl in *; done. Qed.

Lemma noRepeat_snoc route (p : R * R) :
  noRepeat route -> (forall q, last route = Some q -> q <> p) -> noRepeat (route ++ [p]).
Proof.
  intros Hroute Hlast i a b Ha Hb.
  assert (S i < length (route ++ [p]))%nat as Hlt by (by eapply lookup_lt_Some).
  rewrite length_app in Hlt. simpl in Hlt.
  destruct (decide (S i < length route)%nat) as [Hin | Hout].
  - rewrite lookup_app_l in Ha, Hb by lia. by eapply Hroute.
  - assert (S i = length route) as Hi by lia.
    rewrite lookup_app_r in Hb by lia. rewrite Hi, Nat.sub_diag in Hb.
    injection Hb as <-.
    rewrite lookup_app_l in Ha by lia.
    apply Hlast. rewrite last_lookup. rewrite <- Hi. done.
Qed.

Lemma recordPoint_wellFormed bid loc prevRoutes rs :
  recordPoint bid loc prevRoutes = Some rs ->
  wellFormedRoutes prevRoutes -> wellFormedRoutes rs.
Proof.
  intros Hrs Hwf.
  destruct (recordPoint_cases bid loc prevRoutes)
    as [(Hthrow & _) | [Hsame | (route & Hroute & _ & Hlast & Happ)]];
    [congruence | by rewrite Hsame in Hrs; injection Hrs as <- |].
  rewrite Happ in Hrs. injection Hrs as <-.
  intros other r. destruct (decide (other = bid)) as [-> | Hne].
  - rewrite lookup_insert_eq. intros [= <-]. split.
    + intros Heq. apply (f_equal length) in Heq. rewrite length_app in Heq. simpl in Heq. lia.
    + apply noRepeat_snoc; [| done].
      destruct (prevRoutes !! bid) as [r0 |] eqn:Hr0; simpl in Hroute; subst route.
      * by apply (Hwf bid).
      * intros i a b Ha. by rewrite lookup_nil in Ha.
  - rewrite lookup_insert_ne by done. apply Hwf.
Qed.

Lemma onBikeUpdate_wellFormed clock msg st :
  wellFormedRoutes (routes st) -> wellFormedRoutes (routes (onBikeUpdate clock msg st)).
Proof.
  intros Hwf. unfold onBikeUpdate, updateRoutes. cbn [routes].
  destruct (isTrackingRoutes st); [| done].
  destruct (location (data msg)) as [loc |]; [| done].
  destruct (recordPoint (msg_bikeId msg) loc (routes st)) as [rs |] eqn:Hrs; [| done].
  simpl. by eapply recordPoint_wellFormed.
Qed.

Lemma initialRoutes_wellFormed bs : wellFormedRoutes (initialRoutes bs).
Proof.
  induction bs as [| bike bs IH] using rev_ind.
  - intros bid route. unfold initialRoutes. simpl. by rewrite lookup_empty.
  - rewrite initialRoutes_snoc. destruct (currentLocation bike) as [loc |]; [| done].
    intros bid route. destruct (decide (bid = bikeId bike)) as [-> | Hne].
    + rewrite lookup_insert_eq. intros [= <-]. split; [done | apply noRepeat_singleton].
    + rewrite lookup_insert_ne by done. apply IH.
Qed.

Lemma wellFormed_step st (op : Op) :
  wellFormedRoutes (routes st) -> wellFormedRoutes (routes (step st op)).
Proof.
  intros Hwf. unfold step. destruct (crashed st); [done |].
  destruct op as [clock msg | response | | | | bid];
    [exact (onBikeUpdate_wellFormed clock msg st Hwf) | simpl ..].
  - by destruct response.
  - apply initialRoutes_wellFormed.
  - done.
  - intros bid route. by rewrite lookup_empty.
  - done.
Qed.

Lemma updateBikes_known msg prevBikes i x :
  list_find (fun bike => bikeId bike = msg_bikeId msg) prevBikes = Some (i, x) ->
  updateBikes msg prevBikes =
  <[i := {| bikeId := bikeId x;
            currentLocation := location (data msg);
            avgSpeed := data_avgSpeed (data msg);
            batteryLevel := battery (data msg);
            lastSeen := timestamp msg;
            status := status x |}]> prevBikes.
Proof. intros Hfind. unfold updateBikes. by rewrite Hfind. Qed.

Lemma updateBikes_unknown msg prevBikes :
  list_find (fun bike => bikeId bike = msg_bikeId msg) prevBikes = None ->
  updateBikes msg prevBikes =
  prevBikes ++ [ {| bikeId := msg_bikeId msg;
                    currentLocation := location (data msg);
                    avgSpeed := data_avgSpeed (data msg);
                    batteryLevel := battery (data msg);
                    lastSeen := timestamp msg;
                    status := active |} ].
Proof. intros Hfind. unfold updateBikes. by rewrite Hfind. Qed.

End TrackingMapRunFacts.

(** X17.  Every route the tracking map stores, in any state it can
    reach, has at least one point and never holds the same point twice in
    a row. *)
Theorem routes_are_well_formed (ops : list TrackingMap.Op) bid route :
  TrackingMap.routes (TrackingMap.run ops TrackingMap.init) !! bid = Some route ->
  route <> [] /\ TrackingMap.noRepeat route.
Proof.
  assert (forall st, TrackingMap.wellFormedRoutes (TrackingMap.routes st) ->
                     TrackingMap.wellFormedRoutes (TrackingMap.routes (TrackingMap.run ops st)))
    as Hrun.
  { induction ops as [| op ops IH]; intros st Hwf; [done |].
    apply IH. by apply wellFormed_step. }
  apply Hrun. intros b r. simpl. by rewrite lookup_empty.
Qed.

Lemma routes_are_well_formed_witness :
  let ops := [TrackingMap.OpBikeUpdate "10:00:00" (map_report "bike-1" (mkLocation 0 0) "t0");
              TrackingMap.OpStartRouteTracking;
              TrackingMap.OpBikeUpdate "10:00:05" (map_report "bike-1" (mkLocation 1 0) "t1");
              TrackingMap.OpBikeUpdate "10:00:10" (map_report "bike-1" (mkLocation 1 0) "t2");
              TrackingMap.OpBikeUpdate "10:00:15" (map_report "bike-1" (mkLocation 0 0) "t3")] in
  TrackingMap.routes (TrackingMap.run ops TrackingMap.init) !! "bike-1" =
  Some [(0, 0)%R; (1, 0)%R; (0, 0)%R] /\
  TrackingMap.noRepeat [(0, 0)%R; (1, 0)%R; (0, 0)%R].
Proof.
  cbv zeta.
  set (st1 := TrackingMap.run
                [TrackingMap.OpBikeUpdate "10:00:00" (map_report "bike-1" (mkLocation 0 0) "t0");
                 TrackingMap.OpStartRouteTracking] TrackingMap.init).
  assert (TrackingMap.routes st1 = {[ "bike-1" := [(0, 0)%R] ]} /\
          TrackingMap.isTrackingRoutes st1 = true /\ TrackingMap.crashed st1 = false)
    as (Hr1 & Hon1 & Hc1) by done.
  (* second report: a new point *)
  set (st2 := TrackingMap.onBikeUpdate "10:00:05" (map_report "bike-1" (mkLocation 1 0) "t1") st1).
  destruct (onBikeUpdate_recorded "10:00:05" (map_report "bike-1" (mkLocation 1 0) "t1") st1
              (mkLocation 1 0) (<["bike-1" := [(0, 0)%R; (1, 0)%R]]> (TrackingMap.routes st1))
              Hon1 eq_refl) as [Hr2 Hc2].
  { apply (recordPoint_append "bike-1" (mkLocation 1 0) _ [(0, 0)%R] (0, 0)%R).
    - rewrite Hr1. apply lookup_singleton_eq.
    - done.
    - simpl. intros [= H]. lra. }
  fold st2 in Hr2, Hc2. rewrite Hc1 in Hc2.
  (* third report: the same point again *)
  set (st3 := TrackingMap.onBikeUpdate "10:00:10" (map_report "bike-1" (mkLocation 1 0) "t2") st2).
  destruct (onBikeUpdate_recorded "10:00:10" (map_report "bike-1" (mkLocation 1 0) "t2") st2
              (mkLocation 1 0) (TrackingMap.routes st2) Hon1 eq_refl) as [Hr3 Hc3].
  { apply (recordPoint_duplicate "bike-1" (mkLocation 1 0) _ [(0, 0)%R; (1, 0)%R]).
    - rewrite Hr2. apply lookup_insert_eq.
    - done. }
  fold st3 in Hr3, Hc3. rewrite Hc2 in Hc3.
  (* fourth report: back to the first point *)
  set (st4 := TrackingMap.onBikeUpdate "10:00:15" (map_report "bike-1" (mkLocation 0 0) "t3") st3).
  destruct (onBikeUpdate_recorded "10:00:15" (map_report "bike-1" (mkLocation 0 0) "t3") st3
              (mkLocation 0 0)
              (<["bike-1" := [(0, 0)%R; (1, 0)%R; (0, 0)%R]]> (TrackingMap.routes st3))
              Hon1 eq_refl) as [Hr4 Hc4].
  { apply (recordPoint_append "bike-1" (mkLocation 0 0) _ [(0, 0)%R; (1, 0)%R] (1, 0)%R).
    - rewrite Hr3, Hr2. apply lookup_insert_eq.
    - done.
    - simpl. intros [= H]. lra. }
  fold st4 in Hr4.
  assert (TrackingMap.run
            [TrackingMap.OpBikeUpdate "10:00:00" (map_report "bike-1" (mkLocation 0 0) "t0");
             TrackingMap.OpStartRouteTracking;
             TrackingMap.OpBikeUpdate "10:00:05" (map_report "bike-1" (mkLocation 1 0) "t1");
             TrackingMap.OpBikeUpdate "10:00:10" (map_report "bike-1" (mkLocation 1 0) "t2");
             TrackingMap.OpBikeUpdate "10:00:15" (map_report "bike-1" (mkLocation 0 0) "t3")]
            TrackingMap.init = st4) as Hrun.
  { unfold TrackingMap.run. cbn [foldl]. fold (TrackingMap.run
      [TrackingMap.OpBikeUpdate "10:00:00" (map_report "bike-1" (mkLocation 0 0) "t0");
       TrackingMap.OpStartRouteTracking] TrackingMap.init).
    change (TrackingMap.step (TrackingMap.step TrackingMap.init
              (TrackingMap.OpBikeUpdate "10:00:00" (map_report "bike-1" (mkLocation 0 0) "t0")))
              TrackingMap.OpStartRouteTracking) with st1.
    unfold TrackingMap.step at 3. rewrite Hc1. fold st2.
    unfold TrackingMap.step at 2. rewrite Hc2. fold st3.
    unfold TrackingMap.step at 1. rewrite Hc3. by fold st4. }
  assert (TrackingMap.routes st4 !! "bike-1" = Some [(0, 0)%R; (1, 0)%R; (0, 0)%R]) as Hroute.
  { rewrite Hr4. apply lookup_insert_eq. }
  split.
  - by rewrite Hrun.
  - rewrite <- Hrun in Hroute. apply (routes_are_well_formed _ _ _ Hroute).
Defined.

(** X18.  Unless its routes updater throws, a telemetry message only
    ever extends a route: for every entity the route before the message is
    a prefix of the route after it, at most one point longer; while
    tracking is off the routes are not touched at all.  The updater throws,
    and the component crashes, exactly when tracking is on, the message
    has a location, and its id names an inherited member of the routes
    object under which no route is stored. *)
Theorem route_only_grows clock msg (st : TrackingMap.State) bid :
  let st' := TrackingMap.onBikeUpdate clock msg st in
  let before := default [] (TrackingMap.routes st !! bid) in
  let after := default [] (TrackingMap.routes st' !! bid) in
  (TrackingMap.crashed st' = false ->
   before `prefix_of` after /\ length after <= S (length before)) /\
  (TrackingMap.isTrackingRoutes st = false ->
   TrackingMap.routes st' = TrackingMap.routes st /\
   TrackingMap.crashed st' = TrackingMap.crashed st) /\
  (TrackingMap.crashed st' = true <->
   TrackingMap.crashed st = true \/
   (TrackingMap.isTrackingRoutes st = true /\
    is_Some (TrackingMap.location (TrackingMap.data msg)) /\
    TrackingMap.routes st !! TrackingMap.msg_bikeId msg = None /\
    TrackingMap.msg_bikeId msg ∈ TrackingMap.inheritedMembers)).
Proof.
  cbv zeta. split_and!.
  - intros _.
    destruct (TrackingMap.isTrackingRoutes st) eqn:Hon;
      [destruct (TrackingMap.location (TrackingMap.data msg)) as [loc |] eqn:Hloc |].
    + destruct (recordPoint_cases (TrackingMap.msg_bikeId msg) loc (TrackingMap.routes st))
        as [(Hthrow & _) | [Hsame | (route & Hroute & _ & _ & Happ)]].
      * destruct (onBikeUpdate_threw clock msg st loc Hon Hloc Hthrow) as [-> _].
        split; [reflexivity | lia].
      * destruct (onBikeUpdate_recorded clock msg st loc _ Hon Hloc Hsame) as [-> _].
        split; [reflexivity | lia].
      * destruct (onBikeUpdate_recorded clock msg st loc _ Hon Hloc Happ) as [-> _].
        destruct (decide (bid = TrackingMap.msg_bikeId msg)) as [-> | Hne].
        -- rewrite lookup_insert_eq. simpl. rewrite <- Hroute, length_app. simpl.
           split; [by apply prefix_app_r | lia].
        -- rewrite lookup_insert_ne by done. split; [reflexivity | lia].
    + destruct (onBikeUpdate_not_recorded clock msg st (or_intror Hloc)) as [-> _].
      split; [reflexivity | lia].
    + destruct (onBikeUpdate_not_recorded clock msg st (or_introl Hon)) as [-> _].
      split; [reflexivity | lia].
  - intros Hoff. apply onBikeUpdate_not_recorded. by left.
  - apply onBikeUpdate_crashed.
Qed.

Lemma route_only_grows_witness :
  let st := TrackingMap.mkState [] {[ "bike-1" := [(0, 0)%R] ]} true None None in
  let st' := TrackingMap.onBikeUpdate "10:00:05" (map_report "bike-1" (mkLocation 1 0) "t1") st in
  [(0, 0)%R] `prefix_of` default [] (TrackingMap.routes st' !! "bike-1") /\
  TrackingMap.routes st' !! "bike-1" = Some [(0, 0)%R; (1, 0)%R].
Proof.
  cbv zeta.
  destruct (onBikeUpdate_recorded "10:00:05" (map_report "bike-1" (mkLocation 1 0) "t1")
              (TrackingMap.mkState [] {[ "bike-1" := [(0, 0)%R] ]} true None None)
              (mkLocation 1 0)
              (<["bike-1" := [(0, 0)%R; (1, 0)%R]]> {[ "bike-1" := [(0, 0)%R] ]})
              eq_refl eq_refl) as [Hroutes Hcrashed].
  { apply (recordPoint_append "bike-1" (mkLocation 1 0) _ [(0, 0)%R] (0, 0)%R).
    - apply lookup_singleton_eq.
    - done.
    - simpl. intros [= H]. lra. }
  split.
  - apply (proj1 (proj1 (route_only_grows "10:00:05"
                           (map_report "bike-1" (mkLocation 1 0) "t1")
                           (TrackingMap.mkState [] {[ "bike-1" := [(0, 0)%R] ]} true None None)
                           "bike-1") Hcrashed)).
  - rewrite Hroutes. apply lookup_insert_eq.
Defined.

(** X19.  On the tracking map a telemetry message keeps the id and the
    status of an entity that is already listed (an inactive or
    maintenance entity is not reactivated), lists an unknown entity as
    active, and keeps a list without duplicate ids without duplicates. *)
Theorem map_telemetry_keeps_status clock msg (st : TrackingMap.State) :
  let st' := TrackingMap.onBikeUpdate clock msg st in
  (forall bike,
      TrackingMap.find (TrackingMap.msg_bikeId msg) (TrackingMap.bikes st) = Some bike ->
      exists bike',
        TrackingMap.find (TrackingMap.msg_bikeId msg) (TrackingMap.bikes st') = Some bike' /\
        TrackingMap.status bike' = TrackingMap.status bike /\
        TrackingMap.bikeId bike' = TrackingMap.bikeId bike) /\
  (TrackingMap.find (TrackingMap.msg_bikeId msg) (TrackingMap.bikes st) = None ->
   exists bike',
     TrackingMap.find (TrackingMap.msg_bikeId msg) (TrackingMap.bikes st') = Some bike' /\
     TrackingMap.status bike' = TrackingMap.active) /\
  (NoDup (TrackingMap.bikeId <$> TrackingMap.bikes st) ->
   NoDup (TrackingMap.bikeId <$> TrackingMap.bikes st')).
Proof.
  cbv zeta. unfold TrackingMap.onBikeUpdate. cbn [TrackingMap.bikes].
  unfold TrackingMap.find.
  destruct (list_find (fun bike => TrackingMap.bikeId bike = TrackingMap.msg_bikeId msg)
              (TrackingMap.bikes st)) as [[i x] |] eqn:Hfind.
  - rewrite (updateBikes_known _ _ _ _ Hfind).
    pose proof Hfind as (_ & Hx & _)%list_find_Some.
    split_and!.
    + intros bike [= <-]. eexists. split.
      * erewrite list_find_insert_same; [done | exact Hfind | done].
      * done.
    + done.
    + intros Hnodup.
      by rewrite (keys_insert_found TrackingMap.bikeId _ _ x _ (TrackingMap.msg_bikeId msg)).
  - rewrite (updateBikes_unknown _ _ Hfind). split_and!.
    + done.
    + intros _. eexists. split.
      * erewrite list_find_snoc; [done | exact Hfind | done].
      * done.
    + intros Hnodup. apply NoDup_keys_snoc; [done |]. simpl.
      by apply (list_find_key_None TrackingMap.bikeId).
Qed.

Lemma map_telemetry_keeps_status_witness :
  let parked := TrackingMap.mkBike "bike-1" (Some (mkLocation 3 4)) 0 55 "t9"
                  TrackingMap.maintenance in
  let st := TrackingMap.mkState [parked] ∅ false None None in
  exists bike',
    TrackingMap.find "bike-1"
      (TrackingMap.bikes
         (TrackingMap.onBikeUpdate "10:00:00" (map_report "bike-1" (mkLocation 5 6) "t1") st))
    = Some bike' /\
    TrackingMap.status bike' = TrackingMap.maintenance.
Proof.
  cbv zeta.
  destruct (proj1 (map_telemetry_keeps_status "10:00:00"
                     (map_report "bike-1" (mkLocation 5 6) "t1")
                     (TrackingMap.mkState
                        [TrackingMap.mkBike "bike-1" (Some (mkLocation 3 4)) 0 55 "t9"
                           TrackingMap.maintenance] ∅ false None None))
              _ eq_refl) as (bike' & Hfind & Hstatus & _).
  by exists bike'.
Defined.

(** X20.  While tracking is on, the first located report of an entity
    that has no route yet starts a route made of that single point, and
    after the routes are cleared it leaves exactly that route, provided
    the id names no inherited member of the routes object; for an id that
    does, the routes updater throws and the component crashes. *)
Theorem first_report_starts_route clock msg (st : TrackingMap.State) loc :
  TrackingMap.isTrackingRoutes st = true ->
  TrackingMap.location (TrackingMap.data msg) = Some loc ->
  (TrackingMap.msg_bikeId msg ∉ TrackingMap.inheritedMembers ->
   (TrackingMap.routes st !! TrackingMap.msg_bikeId msg = None ->
    TrackingMap.routes (TrackingMap.onBikeUpdate clock msg st) !! TrackingMap.msg_bikeId msg =
    Some [(lat loc, lng loc)] /\
    TrackingMap.crashed (TrackingMap.onBikeUpdate clock msg st) = TrackingMap.crashed st) /\
   TrackingMap.routes (TrackingMap.onBikeUpdate clock msg (TrackingMap.clearRoutes st)) =
   {[ TrackingMap.msg_bikeId msg := [(lat loc, lng loc)] ]}) /\
  (TrackingMap.msg_bikeId msg ∈ TrackingMap.inheritedMembers ->
   TrackingMap.routes st !! TrackingMap.msg_bikeId msg = None ->
   TrackingMap.crashed (TrackingMap.onBikeUpdate clock msg st) = true).
Proof.
  intros Hon Hloc. split.
  - intros Hplain.
    assert (forall rs, rs !! TrackingMap.msg_bikeId msg = None ->
              TrackingMap.recordPoint (TrackingMap.msg_bikeId msg) loc rs =
              Some (<[TrackingMap.msg_bikeId msg := [(lat loc, lng loc)]]> rs)) as Hfresh.
    { intros rs Hnone. unfold TrackingMap.recordPoint, TrackingMap.routeOf.
      by rewrite Hnone, decide_False. }
    split.
    + intros Hnone.
      destruct (onBikeUpdate_recorded clock msg st loc _ Hon Hloc (Hfresh _ Hnone)) as [-> ->].
      by rewrite lookup_insert_eq.
    + destruct (onBikeUpdate_recorded clock msg (TrackingMap.clearRoutes st) loc _ Hon Hloc
                  (Hfresh _ (lookup_empty _))) as [-> _].
      apply insert_empty.
  - intros Hin Hnone. apply onBikeUpdate_crashed. right. by split_and!.
Qed.

Lemma first_report_starts_route_witness :
  TrackingMap.routes
    (TrackingMap.onBikeUpdate "10:00:00" (map_report "bike-1" (mkLocation 5 6) "t1")
       (TrackingMap.startRouteTracking TrackingMap.init)) !! "bike-1" = Some [(5, 6)%R] /\
  TrackingMap.crashed
    (TrackingMap.onBikeUpdate "10:00:00" (map_report "constructor" (mkLocation 5 6) "t1")
       (TrackingMap.startRouteTracking TrackingMap.init)) = true.
Proof.
  split.
  - apply (proj1 (proj1 (first_report_starts_route "10:00:00"
                           (map_report "bike-1" (mkLocation 5 6) "t1")
                           (TrackingMap.startRouteTracking TrackingMap.init) (mkLocation 5 6)
                           eq_refl eq_refl) ltac:(compute_done)) eq_refl).
  - apply (proj2 (first_report_starts_route "10:00:00"
                    (map_report "constructor" (mkLocation 5 6) "t1")
                    (TrackingMap.startRouteTracking TrackingMap.init) (mkLocation 5 6)
                    eq_refl eq_refl) ltac:(compute_done) eq_refl).
Defined.

(** X21.  A route gets a colour exactly when its entity is in the entity
    list: a listed entity gets a colour of the palette, and an entity that
    is not listed gets none. *)
Theorem route_colour_iff_listed bid (bs : list TrackingMap.Bike) :
  (is_Some (TrackingMap.getRouteColor bid bs) <-> bid ∈ TrackingMap.bikeId <$> bs) /\
  (forall c, TrackingMap.getRouteColor bid bs = Some c -> c ∈ TrackingMap.colors).
Proof.
  unfold TrackingMap.getRouteColor, TrackingMap.findIndex.
  rewrite <- (list_find_key_Some TrackingMap.bikeId).
  destruct (list_find _ bs) as [[i x] |]; cbn [fmap option_fmap option_map fst].
  - split.
    + split; [eauto |]. intros _. apply lookup_lt_is_Some.
      apply Nat.mod_upper_bound. done.
    + intros c Hc. by eapply list_elem_of_lookup_2.
  - split; [| done]. split; by intros [? ?].
Qed.

Lemma route_colour_iff_listed_witness :
  is_Some (TrackingMap.getRouteColor "bike-1" [parked_bike]) /\
  ~ is_Some (TrackingMap.getRouteColor "bike-7" [parked_bike]).
Proof.
  split.
  - apply (proj2 (proj1 (route_colour_iff_listed "bike-1" [parked_bike]))).
    apply list_elem_of_here.
  - intros Hsome.
    apply (proj1 (proj1 (route_colour_iff_listed "bike-7" [parked_bike]))) in Hsome.
    apply list_elem_of_singleton in Hsome. discriminate.
Defined.

(** X22.  Clicking an entity in the list follows it, unless it is the one
    being followed, in which case nothing is followed any more; so two
    clicks on the same entity restore the previous choice exactly when no
    other entity was being followed. *)
Theorem follow_click_toggles bid (st : TrackingMap.State) :
  (TrackingMap.followBike st = Some bid ->
   TrackingMap.followBike (TrackingMap.followBikeHandler bid st) = None) /\
  (TrackingMap.followBike st <> Some bid ->
   TrackingMap.followBike (TrackingMap.followBikeHandler bid st) = Some bid) /\
  (TrackingMap.followBike
     (TrackingMap.followBikeHandler bid (TrackingMap.followBikeHandler bid st)) =
   TrackingMap.followBike st <->
   TrackingMap.followBike st = None \/ TrackingMap.followBike st = Some bid).
Proof.
  unfold TrackingMap.followBikeHandler. cbn.
  destruct (decide (TrackingMap.followBike st = Some bid)) as [Heq | Hne].
  - rewrite decide_False by done. rewrite Heq. split_and!; [done | done |].
    split; [eauto | done].
  - rewrite decide_True by done. split_and!; [done | done |].
    split; [eauto |]. intros [Hnone | Hsome]; [by rewrite Hnone | done].
Qed.

Lemma follow_click_toggles_witness :
  TrackingMap.followBike
    (TrackingMap.followBikeHandler "bike-1"
       (TrackingMap.followBikeHandler "bike-1" TrackingMap.init)) = None.
Proof.
  apply (proj2 (proj2 (proj2 (follow_click_toggles "bike-1" TrackingMap.init)))).
  by left.
Defined.

(** ** The simulator's battery bookkeeping *)

Section FirmwareFacts.
Import Firmware.
Local Open Scope Z_scope.

Implicit Types (st : State) (op : Op).

Lemma wrapInt_small z : - 2 ^ 31 <= z < 2 ^ 31 -> wrapInt z = z.
Proof. intros Hz. unfold wrapInt. rewrite Z.mod_small; lia. Qed.

(** What a successful send does to the counters of a state in range. *)
Lemma send_cases currentTime st :
  inRange st ->
  let st' := sendBikeDataOnce currentTime true st in
  (sendCount st + 1 <= 4 /\
   wrapULong (currentTime - lastBatteryUpdate st) < 30000 /\
   battery st' = battery st /\ sendCount st' = sendCount st + 1 /\
   lastBatteryUpdate st' = lastBatteryUpdate st) \/
  ((sendCount st = 4 \/ 30000 <= wrapULong (currentTime - lastBatteryUpdate st)) /\
   sendCount st' = 0 /\ lastBatteryUpdate st' = currentTime /\
   (battery st' = battery st - 1 /\ 31 <= battery st \/
    battery st' = 70 /\ battery st = 30)).
Proof.
  intros [Hb Hc]. cbv zeta. unfold sendBikeDataOnce. cbv zeta.
  rewrite !wrapInt_small by lia.
  destruct (5 <=? sendCount st + 1) eqn:Hcount;
    destruct (30000 <=? wrapULong (currentTime - lastBatteryUpdate st)) eqn:Htime;
    cbn [orb]; cbn [battery sendCount lastBatteryUpdate];
    try (right; split; [lia |]; split; [done |]; split; [done |];
         destruct (battery st - 1 <? 30) eqn:Hlow; lia).
  left. lia.
Qed.

Lemma inRange_step st op : inRange st -> inRange (step st op).
Proof.
  intros Hin. destruct op as [currentTime sent | topic message | currentTime]; simpl.
  - destruct sent; [| done].
    pose proof (send_cases currentTime st Hin) as Hcases. cbv zeta in Hcases.
    destruct Hin as [Hb Hc]. unfold inRange. lia.
  - unfold mqttCallback. repeat case_decide; try done.
    destruct Hin as [Hb Hc]. unfold inRange. simpl. lia.
  - done.
Qed.

Lemma inRange_run (ops : list Op) st : inRange st -> inRange (run ops st).
Proof.
  revert st. induction ops as [| op ops IH]; intros st Hin; [done |].
  apply IH. by apply inRange_step.
Qed.

Lemma batteryTrace_inRange (ops : list Op) st :
  inRange st -> Forall (fun level => 30 <= level <= 70) (batteryTrace ops st).
Proof.
  revert st. induction ops as [| op ops IH]; intros st Hin; simpl; [done |].
  pose proof (inRange_step st op Hin) as Hnext.
  constructor; [apply Hnext | by apply IH].
Qed.

Lemma send_summary currentTime st :
  inRange st ->
  let st' := sendBikeDataOnce currentTime true st in
  (battery st' = battery st /\ sendCount st' = sendCount st + 1) \/
  (battery st' = battery st - 1 /\ 31 <= battery st) \/
  (battery st' = 70 /\ battery st = 30).
Proof.
  intros Hin. pose proof (send_cases currentTime st Hin) as Hcases.
  cbv zeta in *. lia.
Qed.

Lemma run_snoc (ops : list Op) op st : run (ops ++ [op]) st = step (run ops st) op.
Proof. unfold run. by rewrite foldl_snoc. Qed.

(** After [k <= 5] successful sends the battery either has not moved
    yet, the counter having grown by [k], or has dropped between one and
    [k] times, possibly through the wrap from 30 to 70. *)
Lemma sends_progress (times : list Z) st :
  inRange st -> (length times <= 5)%nat ->
  let st' := run ((fun t => OpSend t true) <$> times) st in
  (battery st' = battery st /\ sendCount st' = sendCount st + Z.of_nat (length times)) \/
  1 <= battery st - battery st' <= Z.of_nat (length times) \/
  1 <= battery st + 41 - battery st' <= Z.of_nat (length times).
Proof.
  intros Hin. induction times as [| t times IH] using rev_ind; intros Hlen; cbv zeta.
  - left. simpl. lia.
  - rewrite length_app in *. simpl in Hlen.
    rewrite fmap_app. simpl. rewrite run_snoc. cbn [step].
    specialize (IH ltac:(lia)). cbv zeta in IH.
    pose proof (inRange_run ((fun t => OpSend t true) <$> times) st Hin) as Hmid.
    pose proof (send_summary t _ Hmid) as Hsend. cbv zeta in Hsend.
    destruct Hin as [Hb Hc]. destruct Hmid as [Hbm Hcm].
    generalize dependent (run ((fun t => OpSend t true) <$> times) st). intros mid.
    generalize (sendBikeDataOnce t true mid). intros st'. simpl. lia.
Qed.

End FirmwareFacts.

(** X23.  Whatever the simulator sends, receives and clocks, the battery
    level it holds and reports stays between 30 and 70, and the send
    counter between 0 and 4; so the [int] arithmetic never overflows. *)
Theorem battery_stays_in_range (ops : list Firmware.Op) :
  let st := Firmware.run ops Firmware.init in
  (30 <= Firmware.battery st <= 70)%Z /\
  (0 <= Firmware.sendCount st <= 4)%Z /\
  Forall (fun level => (30 <= level <= 70)%Z) (Firmware.batteryTrace ops Firmware.init).
Proof.
  assert (Firmware.inRange Firmware.init) as Hinit by (unfold Firmware.inRange; simpl; lia).
  cbv zeta. destruct (inRange_run ops _ Hinit) as [Hb Hc].
  split_and!; [lia | lia | lia | lia | by apply batteryTrace_inRange].
Qed.

(** X24.  A failed send changes nothing.  A successful send lowers the
    battery by one, or takes it from 30 back to 70, when it is the fifth
    send since the last change or when 30 seconds have passed since then,
    and otherwise leaves the battery alone; the 30 seconds are measured
    modulo 2^32, so the rule survives the roll-over of [millis()]. *)
Theorem battery_drop_rule (st : Firmware.State) (currentTime elapsed : Z) :
  Firmware.inRange st ->
  (0 <= Firmware.lastBatteryUpdate st < 2 ^ 32)%Z ->
  (0 <= elapsed < 2 ^ 32)%Z ->
  currentTime = ((Firmware.lastBatteryUpdate st + elapsed) mod 2 ^ 32)%Z ->
  let st' := Firmware.sendBikeDataOnce currentTime true st in
  Firmware.sendBikeDataOnce currentTime false st = st /\
  ((Firmware.sendCount st = 4 \/ 30000 <= elapsed)%Z ->
   Firmware.battery st' = (if decide (Firmware.battery st = 30) then 70
                           else Firmware.battery st - 1)%Z /\
   Firmware.sendCount st' = 0%Z /\ Firmware.lastBatteryUpdate st' = currentTime) /\
  ((Firmware.sendCount st < 4 /\ elapsed < 30000)%Z ->
   Firmware.battery st' = Firmware.battery st /\
   Firmware.sendCount st' = (Firmware.sendCount st + 1)%Z /\
   Firmware.lastBatteryUpdate st' = Firmware.lastBatteryUpdate st).
Proof.
  intros Hin Hlast Helapsed Htime. cbv zeta. split; [done |].
  assert (Firmware.wrapULong (currentTime - Firmware.lastBatteryUpdate st) = elapsed) as Hwrap.
  { unfold Firmware.wrapULong. rewrite Htime.
    rewrite Zminus_mod_idemp_l.
    replace (Firmware.lastBatteryUpdate st + elapsed - Firmware.lastBatteryUpdate st)%Z
      with elapsed by lia.
    by apply Z.mod_small. }
  pose proof (send_cases currentTime st Hin) as Hcases. cbv zeta in Hcases.
  rewrite Hwrap in Hcases. destruct Hin as [Hb Hc].
  split.
  - intros Htrigger. case_decide; lia.
  - intros Hquiet. lia.
Qed.

Lemma battery_drop_rule_witness :
  Firmware.battery
    (Firmware.sendBikeDataOnce 4704 true (Firmware.mkState 30 1 4294942000)) = 70%Z.
Proof.
  apply (proj1 (proj1 (proj2 (battery_drop_rule (Firmware.mkState 30 1 4294942000)
                                4704 30000
                                ltac:(unfold Firmware.inRange; simpl; lia)
                                ltac:(simpl; lia) ltac:(lia) eq_refl))
                  ltac:(right; lia))).
Defined.

(** X25.  Five successful sends in a row always change the battery level,
    whatever the clock shows: the level cannot stay put for longer than
    that. *)
Theorem five_sends_change_battery (st : Firmware.State) (t1 t2 t3 t4 t5 : Z) :
  Firmware.inRange st ->
  Firmware.battery
    (Firmware.run [Firmware.OpSend t1 true; Firmware.OpSend t2 true; Firmware.OpSend t3 true;
                   Firmware.OpSend t4 true; Firmware.OpSend t5 true] st)
  <> Firmware.battery st.
Proof.
  intros Hin.
  pose proof (sends_progress [t1; t2; t3; t4; t5] st Hin ltac:(simpl; lia)) as Hprogress.
  pose proof (inRange_run ((fun t => Firmware.OpSend t true) <$> [t1; t2; t3; t4; t5]) st Hin)
    as [_ Hcount].
  cbv zeta in Hprogress. cbn [fmap list_fmap length] in *.
  destruct Hin as [Hb Hc].
  generalize dependent (Firmware.run
    [Firmware.OpSend t1 true; Firmware.OpSend t2 true; Firmware.OpSend t3 true;
     Firmware.OpSend t4 true; Firmware.OpSend t5 true] st).
  intros st'. lia.
Qed.

Lemma five_sends_change_battery_witness :
  Firmware.battery
    (Firmware.run [Firmware.OpSend 5000 true; Firmware.OpSend 10000 true;
                   Firmware.OpSend 15000 true; Firmware.OpSend 20000 true;
                   Firmware.OpSend 25000 true] Firmware.init)
  <> 70%Z.
Proof.
  apply (five_sends_change_battery Firmware.init 5000 10000 15000 20000 25000).
  unfold Firmware.inRange. simpl. lia.
Defined.

(** ** The alert buffer over a run of messages *)

Section AlertBufferFacts.
Import GeoFencing.
Local Open Scope R_scope.

Implicit Types (st : State) (msgs : list (Z * string * BikeUpdateData)).




End AlertBufferFacts.


(** X27.  Moving the fence centre onto an entity puts that entity inside:
    with tracking on, a positive radius and a successful refetch, every
    fetched entity located at the new centre is classified inside, at
    distance zero. *)
Theorem centre_on_entity_is_inside (st : GeoFencing.State) latlng serverBikes bike :
  GeoFencing.trackingEnabled st = true ->
  (0 < GeoFencing.radius st)%R ->
  bike ∈ GeoFencing.bikes (GeoFencing.changeCenter latlng (Some serverBikes) st) ->
  GeoFencing.currentLocation bike = Some latlng ->
  GeoFencing.isOutsideFence bike = false /\ GeoFencing.distanceFromBase bike = 0%R.
Proof.
  intros Hon Hrad Hin Hloc.
  rewrite changeCenter_bikes_fresh in Hin by done.
  apply list_elem_of_fmap in Hin as (b & -> & _).
  unfold GeoFencing.processBike in *.
  destruct (GeoFencing.currentLocation b) as [loc |] eqn:Hb.
  - simpl in Hloc. rewrite ?Hb in Hloc. injection Hloc as ->.
    simpl. rewrite calculateDistance_same. split; [| done].
    apply bool_decide_eq_false. lra.
  - congruence.
Qed.

Lemma centre_on_entity_is_inside_witness :
  GeoFencing.isOutsideFence
    (GeoFencing.processBike north_of_mumbai 1 fetched_bike) = false.
Proof.
  apply (centre_on_entity_is_inside (GeoFencing.toggleTracking GeoFencing.init)
           north_of_mumbai [fetched_bike]
           (GeoFencing.processBike north_of_mumbai 1 fetched_bike)).
  - reflexivity.
  - simpl. lra.
  - apply list_elem_of_here.
  - reflexivity.
Defined.
